(** * useWebSocket: connection lifecycle, message router and send gate

    A shallow embedding of [client/src/hooks/useWebSocket.ts].

    The hook keeps five cells (two React state cells and three refs) and
    installs four handlers on every socket it constructs.  The embedding
    keeps the cells in one record together with the part of the browser
    the hook talks to: the sockets it has constructed, the pending
    timeouts, the clock, and a log of the subscriber invocations.
    Console output is not modelled. *)

From Stdlib Require Import ZArith Lia.
From stdpp Require Import gmap strings list fin_maps.

Open Scope Z_scope.
Set Warnings "-register-all".

(** ** JavaScript values *)

(** What a JSON text denotes.  Numbers are kept as integers: no handler
    of the hook computes with them.  A document records the members of
    an object as the text writes them; which value of a number, and
    which one of several members of the same name, the engine keeps is
    not what the properties below are about: they concern who is
    invoked, in what order, and the state of the connection. *)
Inductive json :=
| JNull
| JBool (b : bool)
| JNum (n : Z)
| JStr (s : string)
| JArr (elems : list json)
| JObj (members : list (string * json)).

(** Run-time values, as far as the hook can tell them apart.  [payload]
    is typed [any], so values with no JSON encoding are included. *)
Inductive jsval :=
| VUndefined
| VNull
| VBool (b : bool)
| VNum (n : Z)
| VBigInt (n : Z)
| VStr (s : string)
| VArr (elems : list jsval)
| VObj (props : list (string * jsval)).

Inductive exn :=
| SyntaxError           (* JSON.parse on a text that is not JSON *)
| TypeError             (* property read on null, BigInt in JSON.stringify *)
| Thrown (who : nat).   (* raised by the body of subscriber [who] *)

Inductive completion (A : Type) :=
| Normal (a : A)
| Throw (e : exn).
Arguments Normal {A} a.
Arguments Throw {A} e.

Fixpoint of_json (j : json) : jsval :=
  match j with
  | JNull => VNull
  | JBool b => VBool b
  | JNum n => VNum n
  | JStr s => VStr s
  | JArr l => VArr (List.map of_json l)
  | JObj m => VObj (List.map (fun kv => (fst kv, of_json (snd kv))) m)
  end.

(** The data of a message event, by what [JSON.parse] does with it. *)
Inductive frame :=
| Malformed             (* not a JSON text *)
| Doc (j : json).       (* the text of [j] *)

Definition JSON_parse (data : frame) : completion jsval :=
  match data with
  | Malformed => Throw SyntaxError
  | Doc j => Normal (of_json j)
  end.

(** [v.name].  A later member of a parsed object overrides an earlier one
    of the same name. *)
Fixpoint own_prop (name : string) (props : list (string * jsval)) : option jsval :=
  match props with
  | [] => None
  | (k, v) :: rest =>
      match own_prop name rest with
      | Some w => Some w
      | None => if String.eqb k name then Some v else None
      end
  end.

Definition get_prop (v : jsval) (name : string) : completion jsval :=
  match v with
  | VUndefined | VNull => Throw TypeError
  | VObj props => Normal (default VUndefined (own_prop name props))
  | _ => Normal VUndefined
  end.

(** [JSON.stringify]: [undefined] has no encoding (a property holding it
    is left out, an array element becomes [null]); a BigInt throws. *)
Definition serialize_elems (f : jsval -> completion (option json)) :=
  fix go (l : list jsval) : completion (list json) :=
    match l with
    | [] => Normal []
    | x :: rest =>
        match f x with
        | Throw e => Throw e
        | Normal o =>
            match go rest with
            | Throw e => Throw e
            | Normal js => Normal (default JNull o :: js)
            end
        end
    end.

Definition serialize_members (f : jsval -> completion (option json)) :=
  fix go (ps : list (string * jsval)) : completion (list (string * json)) :=
    match ps with
    | [] => Normal []
    | kv :: rest =>
        match f (snd kv) with
        | Throw e => Throw e
        | Normal o =>
            match go rest with
            | Throw e => Throw e
            | Normal ms =>
                Normal (match o with Some j => (fst kv, j) :: ms | None => ms end)
            end
        end
    end.

Fixpoint SerializeJSONProperty (v : jsval) : completion (option json) :=
  match v with
  | VUndefined => Normal None
  | VNull => Normal (Some JNull)
  | VBool b => Normal (Some (JBool b))
  | VNum n => Normal (Some (JNum n))
  | VBigInt _ => Throw TypeError
  | VStr s => Normal (Some (JStr s))
  | VArr l =>
      match serialize_elems SerializeJSONProperty l with
      | Throw e => Throw e
      | Normal js => Normal (Some (JArr js))
      end
  | VObj ps =>
      match serialize_members SerializeJSONProperty ps with
      | Throw e => Throw e
      | Normal ms => Normal (Some (JObj ms))
      end
  end.

(** [JSON.stringify({ type, payload })]: the argument is an object, so
    the result is a text. *)
Definition JSON_stringify_message (type : string) (payload : jsval) : completion json :=
  match serialize_members SerializeJSONProperty
          [("type"%string, VStr type); ("payload"%string, payload)] with
  | Throw e => Throw e
  | Normal ms => Normal (JObj ms)
  end.

(** ** The hook's cells and the browser around them *)

Inductive ReadyState := CONNECTING | OPEN | CLOSING | CLOSED.

#[global] Instance ReadyState_eq_dec : EqDecision ReadyState.
Proof. solve_decision. Defined.

(** A socket: its endpoint, its ready state, and the texts handed to
    [send], each kept as the document it encodes. *)
Record WebSocket := {
  url : string;
  readyState : ReadyState;
  sent : list json
}.

(** A pending [setTimeout].  The hook schedules one kind of callback
    only, the reconnect closure, so a timer is its handle and its due
    time.  Handles are positive, hence truthy. *)
Record timeout := {
  handle : positive;
  due : Z
}.

(** A subscriber is a function object, compared by identity. *)
Definition callback := nat.

Record state := {
  (* useState *)
  isConnected : bool;
  error : option string;
  (* useRef *)
  socketRef : option nat;
  messageCallbacksRef : gmap string (list callback);
  reconnectTimeoutRef : option positive;
  (* the browser *)
  location_protocol : string;
  location_host : string;
  sockets : list WebSocket;    (* every socket constructed; the index is its identity *)
  timers : list timeout;       (* pending timeouts, oldest first *)
  next_handle : positive;
  now : Z;                     (* ms *)
  (* observation: subscriber invocations, oldest first *)
  calls : list (callback * jsval)
}.

Definition setIsConnected (b : bool) (s : state) : state :=
  {| isConnected := b; error := error s; socketRef := socketRef s;
     messageCallbacksRef := messageCallbacksRef s;
     reconnectTimeoutRef := reconnectTimeoutRef s;
     location_protocol := location_protocol s; location_host := location_host s;
     sockets := sockets s; timers := timers s; next_handle := next_handle s;
     now := now s; calls := calls s |}.

Definition setError (e : option string) (s : state) : state :=
  {| isConnected := isConnected s; error := e; socketRef := socketRef s;
     messageCallbacksRef := messageCallbacksRef s;
     reconnectTimeoutRef := reconnectTimeoutRef s;
     location_protocol := location_protocol s; location_host := location_host s;
     sockets := sockets s; timers := timers s; next_handle := next_handle s;
     now := now s; calls := calls s |}.

Definition set_socketRef (r : option nat) (s : state) : state :=
  {| isConnected := isConnected s; error := error s; socketRef := r;
     messageCallbacksRef := messageCallbacksRef s;
     reconnectTimeoutRef := reconnectTimeoutRef s;
     location_protocol := location_protocol s; location_host := location_host s;
     sockets := sockets s; timers := timers s; next_handle := next_handle s;
     now := now s; calls := calls s |}.

Definition set_messageCallbacksRef (m : gmap string (list callback)) (s : state) : state :=
  {| isConnected := isConnected s; error := error s; socketRef := socketRef s;
     messageCallbacksRef := m;
     reconnectTimeoutRef := reconnectTimeoutRef s;
     location_protocol := location_protocol s; location_host := location_host s;
     sockets := sockets s; timers := timers s; next_handle := next_handle s;
     now := now s; calls := calls s |}.

Definition set_reconnectTimeoutRef (r : option positive) (s : state) : state :=
  {| isConnected := isConnected s; error := error s; socketRef := socketRef s;
     messageCallbacksRef := messageCallbacksRef s;
     reconnectTimeoutRef := r;
     location_protocol := location_protocol s; location_host := location_host s;
     sockets := sockets s; timers := timers s; next_handle := next_handle s;
     now := now s; calls := calls s |}.

Definition set_sockets (l : list WebSocket) (s : state) : state :=
  {| isConnected := isConnected s; error := error s; socketRef := socketRef s;
     messageCallbacksRef := messageCallbacksRef s;
     reconnectTimeoutRef := reconnectTimeoutRef s;
     location_protocol := location_protocol s; location_host := location_host s;
     sockets := l; timers := timers s; next_handle := next_handle s;
     now := now s; calls := calls s |}.

Definition set_timers (l : list timeout) (n : positive) (s : state) : state :=
  {| isConnected := isConnected s; error := error s; socketRef := socketRef s;
     messageCallbacksRef := messageCallbacksRef s;
     reconnectTimeoutRef := reconnectTimeoutRef s;
     location_protocol := location_protocol s; location_host := location_host s;
     sockets := sockets s; timers := l; next_handle := n;
     now := now s; calls := calls s |}.

Definition set_now (t : Z) (s : state) : state :=
  {| isConnected := isConnected s; error := error s; socketRef := socketRef s;
     messageCallbacksRef := messageCallbacksRef s;
     reconnectTimeoutRef := reconnectTimeoutRef s;
     location_protocol := location_protocol s; location_host := location_host s;
     sockets := sockets s; timers := timers s; next_handle := next_handle s;
     now := t; calls := calls s |}.

Definition set_calls (l : list (callback * jsval)) (s : state) : state :=
  {| isConnected := isConnected s; error := error s; socketRef := socketRef s;
     messageCallbacksRef := messageCallbacksRef s;
     reconnectTimeoutRef := reconnectTimeoutRef s;
     location_protocol := location_protocol s; location_host := location_host s;
     sockets := sockets s; timers := timers s; next_handle := next_handle s;
     now := now s; calls := l |}.

(** The first render: nothing connected, nothing registered. *)
Definition initial (protocol host : string) : state :=
  {| isConnected := false; error := None; socketRef := None;
     messageCallbacksRef := ∅; reconnectTimeoutRef := None;
     location_protocol := protocol; location_host := host;
     sockets := []; timers := []; next_handle := 1%positive;
     now := 0; calls := [] |}.

(** ** Browser primitives *)

Definition setTimeout (delay : Z) (s : state) : positive * state :=
  let h := next_handle s in
  (h, set_timers (timers s ++ [{| handle := h; due := now s + delay |}]) (Pos.succ h) s).

Definition clearTimeout (h : positive) (s : state) : state :=
  set_timers (List.filter (fun t => negb (Pos.eqb (handle t) h)) (timers s))
             (next_handle s) s.

Definition new_WebSocket (wsUrl : string) (s : state) : nat * state :=
  (length (sockets s),
   set_sockets (sockets s ++ [{| url := wsUrl; readyState := CONNECTING; sent := [] |}]) s).

Definition readyState_of (k : nat) (s : state) : option ReadyState :=
  readyState <$> sockets s !! k.

(** [socketRef.current && socketRef.current.readyState === WebSocket.OPEN] *)
Definition socket_open (s : state) : bool :=
  match socketRef s with
  | Some k =>
      match readyState_of k s with
      | Some OPEN => true
      | _ => false
      end
  | None => false
  end.

Definition with_readyState (r : ReadyState) (w : WebSocket) : WebSocket :=
  {| url := url w; readyState := r; sent := sent w |}.

Definition set_readyState (k : nat) (r : ReadyState) (s : state) : state :=
  set_sockets (alter (with_readyState r) k (sockets s)) s.

(** [socket.close()]: starts the closing handshake; the close event
    comes later, from the browser. *)
Definition WebSocket_close (k : nat) (s : state) : state :=
  match readyState_of k s with
  | Some CONNECTING | Some OPEN => set_readyState k CLOSING s
  | _ => s
  end.

(** [socket.send(text)] on an open socket. *)
Definition WebSocket_send (k : nat) (text : json) (s : state) : state :=
  set_sockets
    (alter (fun w => {| url := url w; readyState := readyState w;
                        sent := sent w ++ [text] |}) k (sockets s)) s.

(** ** Computations of the hook: state passing with exceptions

    A JavaScript exception leaves the writes made before it in place, so
    a computation returns the state in either case. *)

Definition M (A : Type) : Type := state -> completion A * state.

Definition ret {A} (a : A) : M A := fun s => (Normal a, s).

Definition raise {A} (e : exn) : M A := fun s => (Throw e, s).

Definition bind {A B} (m : M A) (k : A -> M B) : M B :=
  fun s =>
    match m s with
    | (Normal a, s') => k a s'
    | (Throw e, s') => (Throw e, s')
    end.

Definition lift {A} (c : completion A) : M A := fun s => (c, s).

Definition gets {A} (f : state -> A) : M A := fun s => (Normal (f s), s).

Definition modify (f : state -> state) : M unit := fun s => (Normal tt, f s).

(** [try { m } catch (err) { console.error(..) }] *)
Definition try_catch (m : M unit) : M unit :=
  fun s =>
    match m s with
    | (Normal _, s') => (Normal tt, s')
    | (Throw _, s') => (Normal tt, s')
    end.

Notation "x <- m ;; k" := (bind m (fun x => k))
  (at level 20, m at level 99, k at level 200, only parsing).
Notation "m ;;; k" := (bind m (fun _ => k))
  (at level 100, k at level 200, right associativity, only parsing).

(** ** Message router *)

(** [messageCallbacksRef.current.get(type) || []] *)
Definition callbacks_for (type : string) (s : state) : list callback :=
  default [] (messageCallbacksRef s !! type).

(** The function returned by [addMessageListener] closes over [type]
    and [callback]. *)
Record listener := {
  l_type : string;
  l_callback : callback
}.

Definition addMessageListener (type : string) (cb : callback) (s : state)
  : listener * state :=
  let callbacks := callbacks_for type s ++ [cb] in
  ({| l_type := type; l_callback := cb |},
   set_messageCallbacksRef (<[type := callbacks]> (messageCallbacksRef s)) s).

(** [cb => cb !== callback] *)
Definition differs (removed : callback) : callback -> bool :=
  fun cb => negb (Nat.eqb cb removed).

Definition removeListener (l : listener) (s : state) : state :=
  let updatedCallbacks := callbacks_for (l_type l) s in
  set_messageCallbacksRef
    (<[l_type l := List.filter (differs (l_callback l)) updatedCallbacks]>
       (messageCallbacksRef s)) s.

(** ** Outbound send gate *)

Definition sendMessage (type : string) (payload : jsval) : M bool :=
  is_open <- gets socket_open ;;
  if is_open
  then
    text <- lift (JSON_stringify_message type payload) ;;
    modify (fun s => match socketRef s with
                     | Some socket => WebSocket_send socket text s
                     | None => s
                     end) ;;;
    ret true
  else ret false.

(** ** Connection manager *)

(** [`${protocol}//${window.location.host}/ws`] *)
Definition wsUrl (s : state) : string :=
  let protocol := if String.eqb (location_protocol s) "https:" then "wss:" else "ws:" in
  (protocol ++ "//" ++ location_host s ++ "/ws")%string.

Definition connectWebSocket (s : state) : state :=
  (* Clear any existing reconnect timers *)
  let s :=
    match reconnectTimeoutRef s with
    | Some h => set_reconnectTimeoutRef None (clearTimeout h s)
    | None => s
    end in
  (* Close existing socket if it's open *)
  let s := if socket_open s
           then match socketRef s with
                | Some k => WebSocket_close k s
                | None => s
                end
           else s in
  let '(socket, s) := new_WebSocket (wsUrl s) s in
  set_socketRef (Some socket) s.

Definition onopen (s : state) : state :=
  setError None (setIsConnected true s).

Definition onclose (code : Z) (s : state) : state :=
  let s := setIsConnected false s in
  (* Attempt to reconnect after a delay, unless this was a clean close *)
  if negb (Z.eqb code 1000)
  then let '(h, s) := setTimeout 2000 s in set_reconnectTimeoutRef (Some h) s
  else s.

Definition onerror (s : state) : state :=
  setError (Some "Failed to connect to game server"%string) s.

(** The cleanup of the mount effect. *)
Definition cleanup (s : state) : state :=
  let s :=
    match reconnectTimeoutRef s with
    | Some h => clearTimeout h s
    | None => s
    end in
  if socket_open s
  then match socketRef s with
       | Some k => WebSocket_close k s
       | None => s
       end
  else s.

(** ** Subscribers

    A subscriber is code of the consumer.  What the hook can observe of
    it: it is called with an argument, it may call back into the
    registry (subscribe, or invoke a function it got from subscribing),
    and it returns or throws. *)

Inductive registry_call :=
| Subscribe (type : string) (cb : callback)
| Unsubscribe (l : listener).

Record reaction := {
  reenters : list registry_call;
  throws : bool
}.

Definition quiet : reaction := {| reenters := []; throws := false |}.

Definition registry_step (c : registry_call) (s : state) : state :=
  match c with
  | Subscribe type cb => snd (addMessageListener type cb s)
  | Unsubscribe l => removeListener l s
  end.

Section Subscribers.

(** The body of each subscriber. *)
Variable body : callback -> jsval -> reaction.

(** [callback(arg)] *)
Definition invoke (arg : jsval) (cb : callback) : M unit :=
  modify (fun s => set_calls (calls s ++ [(cb, arg)]) s) ;;;
  modify (fun s => fold_left (fun s c => registry_step c s) (reenters (body cb arg)) s) ;;;
  if throws (body cb arg) then raise (Thrown cb) else ret tt.

(** [callbacks.forEach(f)].  The array is walked up to the length it
    had when the walk began; the hook appends to such an array
    ([push]) and replaces it ([filter]) but never shortens or
    overwrites it, so the walk sees the elements as they were. *)
Fixpoint forEach (callbacks : list callback) (f : callback -> M unit) : M unit :=
  match callbacks with
  | [] => ret tt
  | cb :: rest => f cb ;;; forEach rest f
  end.

(** The keys of the map are strings, so [get] of a [type] that is not
    a string finds nothing. *)
Definition onmessage (data : frame) : M unit :=
  try_catch (
    message <- lift (JSON_parse data) ;;
    (* Call all registered callbacks for this message type *)
    type <- lift (get_prop message "type") ;;
    callbacks <- gets (fun s => match type with
                                | VStr t => callbacks_for t s
                                | _ => []
                                end) ;;
    forEach callbacks (fun cb =>
      payload <- lift (get_prop message "payload") ;;
      invoke payload cb) ;;;
    (* Call any wildcards *)
    wildcardCallbacks <- gets (callbacks_for "*") ;;
    forEach wildcardCallbacks (invoke message)).

End Subscribers.

(** ** The event loop

    After the mount effect has run, the hook only reacts: to events of
    the sockets it constructed, to the passing of time, to calls of the
    consumer through the returned API, and to the unmount. *)

Inductive event :=
| SocketOpen (k : nat)
| SocketMessage (k : nat) (data : frame)
| SocketClose (k : nat) (code : Z)
| SocketError (k : nat)
| Elapse (ms : Z)
| CallSend (type : string) (payload : jsval)
| CallSubscribe (type : string) (cb : callback)
| CallUnsubscribe (l : listener)
| Unmount.

(** The first pending timer that is due. *)
Definition due_timer (s : state) : option timeout :=
  List.find (fun t => Z.leb (due t) (now s)) (timers s).

(** Run the due timers, oldest first.  Every timer of the hook has the
    same delay, so the oldest due timer is the earliest.  The callback
    of every timer is the closure calling [connectWebSocket]. *)
Fixpoint run_timers (fuel : nat) (s : state) : state :=
  match fuel with
  | O => s
  | S fuel' =>
      match due_timer s with
      | None => s
      | Some t =>
          let s := set_timers
                     (List.filter (fun u => negb (Pos.eqb (handle u) (handle t))) (timers s))
                     (next_handle s) s in
          run_timers fuel' (connectWebSocket s)
      end
  end.

(** [connectWebSocket] schedules nothing, so one round per pending timer
    is enough. *)
Definition elapse (ms : Z) (s : state) : state :=
  let s := set_now (now s + Z.max 0 ms) s in
  run_timers (length (timers s)) s.

Section Run.

Variable body : callback -> jsval -> reaction.

(** The browser delivers [open] to a connecting socket, [message] to
    an open one, and [close] once to a socket that is not yet closed;
    an event that cannot occur leaves the state as it is. *)
Definition step (e : event) (s : state) : state :=
  match e with
  | SocketOpen k =>
      match readyState_of k s with
      | Some CONNECTING => onopen (set_readyState k OPEN s)
      | _ => s
      end
  | SocketMessage k data =>
      match readyState_of k s with
      | Some OPEN => snd (onmessage body data s)
      | _ => s
      end
  | SocketClose k code =>
      match readyState_of k s with
      | Some CLOSED | None => s
      | Some _ => onclose code (set_readyState k CLOSED s)
      end
  | SocketError k =>
      match readyState_of k s with
      | Some CLOSED | None => s
      | Some _ => onerror s
      end
  | Elapse ms => elapse ms s
  | CallSend type payload => snd (sendMessage type payload s)
  | CallSubscribe type cb => snd (addMessageListener type cb s)
  | CallUnsubscribe l => removeListener l s
  | Unmount => cleanup s
  end.

Definition run (es : list event) (s : state) : state :=
  fold_left (fun s e => step e s) es s.

End Run.

(** The state once the mount effect has called [connectWebSocket]. *)
Definition mounted (protocol host : string) : state :=
  connectWebSocket (initial protocol host).

(** Number of [new WebSocket] so far, which is the number of calls of
    [connectWebSocket]. *)
Definition connects (s : state) : nat := length (sockets s).

(** ** Concrete subscribers and states, for the examples below *)

Definition all_quiet : callback -> jsval -> reaction := fun _ _ => quiet.

(** Subscriber 1 throws, every other one returns. *)
Definition first_throws : callback -> jsval -> reaction :=
  fun cb _ => if Nat.eqb cb 1 then {| reenters := []; throws := true |} else quiet.

Definition chat_hi : json :=
  JObj [("type"%string, JStr "chat"); ("payload"%string, JStr "hi")].

Definition star_hi : json :=
  JObj [("type"%string, JStr "*"); ("payload"%string, JStr "hi")].

Definition page : state := mounted "https:" "bingo.example".

Definition page_open : state := step all_quiet (SocketOpen 0) page.

Definition three_subscribers : state :=
  run all_quiet
    [CallSubscribe "chat" 1%nat; CallSubscribe "*" 2%nat; CallSubscribe "chat" 3%nat]
    page_open.

Definition thrower_first : state :=
  run first_throws
    [CallSubscribe "chat" 1%nat; CallSubscribe "chat" 2%nat; CallSubscribe "*" 3%nat]
    page_open.

(** ** Predicates on states and runs *)

(** The invocations one dispatch is to make, in order: the list of the
    message's type with the payload, then the wildcard list with the
    whole message. *)
Definition deliveries (t : string) (payload message : jsval) (s : state)
  : list (callback * jsval) :=
  List.map (fun cb => (cb, payload)) (callbacks_for t s)
  ++ List.map (fun cb => (cb, message)) (callbacks_for "*" s).

(** A sequence of invocations, made one after the other. *)
Fixpoint deliver (body : callback -> jsval -> reaction)
    (ds : list (callback * jsval)) : M unit :=
  match ds with
  | [] => ret tt
  | d :: rest => invoke body (snd d) (fst d) ;;; deliver body rest
  end.

(** The cells and browser state that make up the connection. *)
Definition connection_of (s : state) :=
  (isConnected s, error s, socketRef s, reconnectTimeoutRef s,
   sockets s, timers s, next_handle s, now s).

(** Every registered entry is still registered. *)
Definition keeps (s s' : state) : Prop :=
  forall t cb, In cb (callbacks_for t s) -> In cb (callbacks_for t s').

(** [m] takes every state to one related to it by [R]. *)
Definition respects (R : state -> state -> Prop) {A} (m : M A) : Prop :=
  forall s, R s (snd (m s)).

(** No subscriber invokes a function returned by [addMessageListener]. *)
Definition never_unsubscribes (body : callback -> jsval -> reaction) : Prop :=
  forall cb arg l, ~ In (Unsubscribe l) (reenters (body cb arg)).

Definition unsubscribes (e : event) : bool :=
  match e with
  | CallUnsubscribe _ => true
  | _ => false
  end.

Definition all_closed (s : state) : Prop :=
  forall k r, readyState_of k s = Some r -> r = CLOSED.

(** The invariant of the event loop: only the current socket can still
    deliver events, and a reconnect is pending only while no socket
    can, in which case it is the one timer and the ref holds it. *)
Definition orderly (s : state) : Prop :=
  (forall k r, readyState_of k s = Some r -> r <> CLOSED -> socketRef s = Some k)
  /\ (timers s = []
      \/ exists t, timers s = [t]
                   /\ reconnectTimeoutRef s = Some (handle t)
                   /\ all_closed s).

(** The state after the calls into the registry that a sequence of
    invocations makes. *)
Definition reentries (body : callback -> jsval -> reaction)
    (ds : list (callback * jsval)) (s : state) : state :=
  fold_left
    (fun s d =>
       fold_left (fun s c => registry_step c s) (reenters (body (fst d) (snd d))) s)
    ds s.

(** No subscriber throws. *)
Definition never_throws (body : callback -> jsval -> reaction) : Prop :=
  forall cb arg, throws (body cb arg) = false.

(** The mount effect run a second time on the same refs (mount,
    cleanup, mount), while the first socket is still connecting: the
    cleanup closes only an open socket, so the first socket stays as it
    is and keeps its handlers. *)
Definition mounted_twice (protocol host : string) : state :=
  connectWebSocket (cleanup (mounted protocol host)).

(** The server is down: socket [k] fails with the first code, the
    reconnect timer runs, socket [k + 1] fails with the next code, and
    so on. *)
Fixpoint failed_attempts (k : nat) (codes : list Z) : list event :=
  match codes with
  | [] => []
  | code :: rest => SocketClose k code :: Elapse 2000 :: failed_attempts (S k) rest
  end.



(** The page the hook runs on. *)
Definition site_of (s : state) : string * string :=
  (location_protocol s, location_host s).

(** A subscriber that, when invoked, revokes the registrations of
    subscriber 2 under ['chat'] and of subscriber 3 under ['*']. *)
Definition first_revokes : callback -> jsval -> reaction :=
  fun cb _ =>
    if Nat.eqb cb 1
    then {| reenters := [Unsubscribe {| l_type := "chat"; l_callback := 2%nat |};
                         Unsubscribe {| l_type := "*"; l_callback := 3%nat |}];
            throws := false |}
    else quiet.

Definition revoker_first : state :=
  run first_revokes
    [CallSubscribe "chat" 1%nat; CallSubscribe "chat" 2%nat; CallSubscribe "*" 3%nat]
    page_open.

(** The endpoint for a page: the secure scheme exactly for an https
    page, the page's host, the fixed path. *)
Definition endpoint (protocol host : string) : string :=
  ((if String.eqb protocol "https:" then "wss:" else "ws:")
   ++ "//" ++ host ++ "/ws")%string.

(** [sendMessage] called with each message in turn. *)
Definition sends (msgs : list (string * jsval)) : list event :=
  List.map (fun m => CallSend (fst m) (snd m)) msgs.

(** * Properties *)

(** ** State bookkeeping *)

Lemma set_calls_id s : set_calls (calls s) s = s.
Proof. by destruct s. Qed.

Lemma set_calls_twice l l' s : set_calls l (set_calls l' s) = set_calls l s.
Proof. reflexivity. Qed.

Lemma calls_set_calls l s : calls (set_calls l s) = l.
Proof. reflexivity. Qed.

Lemma callbacks_for_set_calls t l s :
  callbacks_for t (set_calls l s) = callbacks_for t s.
Proof. reflexivity. Qed.

(** ** Subscribe and unsubscribe *)

Lemma callbacks_for_add type cb s t :
  callbacks_for t (snd (addMessageListener type cb s)) =
  if decide (type = t) then callbacks_for t s ++ [cb] else callbacks_for t s.
Proof.
  unfold callbacks_for; simpl. rewrite lookup_insert.
  by case_decide; subst.
Qed.

Lemma callbacks_for_remove l s t :
  callbacks_for t (removeListener l s) =
  if decide (l_type l = t)
  then List.filter (differs (l_callback l)) (callbacks_for t s)
  else callbacks_for t s.
Proof.
  unfold callbacks_for; simpl. rewrite lookup_insert.
  by case_decide; subst.
Qed.

Lemma filter_differs_twice cb (l : list callback) :
  List.filter (differs cb) (List.filter (differs cb) l) = List.filter (differs cb) l.
Proof.
  induction l as [|x l IH]; simpl; [done|].
  destruct (differs cb x) eqn:E; simpl; rewrite ?E, IH; done.
Qed.

Lemma filter_differs_absent cb (l : list callback) :
  ~ In cb l -> List.filter (differs cb) l = l.
Proof.
  induction l as [|x l IH]; simpl; [done|].
  intros H. unfold differs at 1.
  destruct (Nat.eqb_spec x cb) as [->|_]; simpl.
  - exfalso. apply H. by left.
  - f_equal. apply IH. intros ?. apply H. by right.
Qed.

Lemma removeListener_twice l s :
  removeListener l (removeListener l s) = removeListener l s.
Proof.
  unfold removeListener at 1.
  rewrite callbacks_for_remove. rewrite decide_True by done.
  rewrite filter_differs_twice.
  unfold removeListener, set_messageCallbacksRef; simpl.
  by rewrite insert_insert_eq.
Qed.

(** C3 (as amended).  The function returned by [addMessageListener type cb]
    removes from the list of [type] every entry that is the function
    [cb], however many times it was registered; the other callbacks of
    that list keep their order and the lists of other types are
    untouched; [cb] is then absent; invoking the function when [cb] is
    already absent changes no list, and invoking it twice is the same
    as invoking it once. *)
Theorem unsubscribe_removes_every_equal_entry type cb s s' :
  let l := fst (addMessageListener type cb s) in
  callbacks_for type (snd (addMessageListener type cb s)) = callbacks_for type s ++ [cb]
  /\ (forall t, callbacks_for t (removeListener l s') =
                if decide (type = t)
                then List.filter (differs cb) (callbacks_for t s')
                else callbacks_for t s')
  /\ ~ In cb (callbacks_for type (removeListener l s'))
  /\ (~ In cb (callbacks_for type s') ->
      forall t, callbacks_for t (removeListener l s') = callbacks_for t s')
  /\ removeListener l (removeListener l s') = removeListener l s'.
Proof.
  cbv zeta.
  change (fst (addMessageListener type cb s))
    with {| l_type := type; l_callback := cb |}.
  split; [|split; [|split; [|split]]].
  - rewrite callbacks_for_add. by rewrite decide_True.
  - intros t. by rewrite callbacks_for_remove.
  - rewrite callbacks_for_remove; simpl. rewrite decide_True by done.
    rewrite filter_In. unfold differs. intros [_ H].
    by rewrite Nat.eqb_refl in H.
  - intros A t. rewrite callbacks_for_remove; simpl.
    case_decide; [subst|done]. by apply filter_differs_absent.
  - apply removeListener_twice.
Qed.

Lemma unsubscribe_removes_every_equal_entry_chat :
  let '(l, s) := addMessageListener "chat" 7%nat three_subscribers in
  callbacks_for "chat" s = [1%nat; 3%nat; 7%nat]
  /\ callbacks_for "chat" (removeListener l s) = [1%nat; 3%nat]
  /\ callbacks_for "chat" (removeListener l (removeListener l s)) = [1%nat; 3%nat].
Proof.
  pose proof (unsubscribe_removes_every_equal_entry "chat" 7%nat three_subscribers
                (snd (addMessageListener "chat" 7%nat three_subscribers)))
    as (A & B & _ & _ & _).
  pose proof (unsubscribe_removes_every_equal_entry "chat" 7%nat three_subscribers
                (removeListener {| l_type := "chat"; l_callback := 7%nat |}
                   (snd (addMessageListener "chat" 7%nat three_subscribers))))
    as (_ & _ & _ & C & _).
  cbv zeta in A, B, C. simpl fst in B, C.
  change (addMessageListener "chat" 7%nat three_subscribers)
    with ({| l_type := "chat"; l_callback := 7%nat |},
          snd (addMessageListener "chat" 7%nat three_subscribers)).
  split; [|split].
  - rewrite A. reflexivity.
  - rewrite (B "chat"%string). reflexivity.
  - rewrite C.
    + rewrite (B "chat"%string). reflexivity.
    + rewrite (B "chat"%string). vm_compute. intros [H|[H|[]]]; discriminate.
Defined.

(** C3, as stated, fails: a callback registered twice under one type
    loses both entries when the function returned by the first
    registration is invoked; the claim leaves one of them. *)
Lemma duplicate_entries_removed_together :
  let '(l1, s1) := addMessageListener "chat" 7%nat page in
  let '(l2, s2) := addMessageListener "chat" 7%nat s1 in
  callbacks_for "chat" s2 = [7%nat; 7%nat]
  /\ callbacks_for "chat" (removeListener l1 s2) = []
  /\ callbacks_for "chat" (removeListener l1 s2) <> [7%nat].
Proof. vm_compute. repeat split; congruence. Qed.

(** ** Dispatch *)

Section Dispatch.

Variable body : callback -> jsval -> reaction.

Lemma forEach_ext (f g : callback -> M unit) l s :
  (forall cb s, f cb s = g cb s) -> forEach l f s = forEach l g s.
Proof.
  intros E. revert s. induction l as [|cb l IH]; intros s; simpl; [done|].
  unfold bind. rewrite E. destruct (g cb s) as [[[]|e] s1]; [apply IH|done].
Qed.

Lemma invoke_quiet arg cb s :
  body cb arg = quiet ->
  invoke body arg cb s = (Normal tt, set_calls (calls s ++ [(cb, arg)]) s).
Proof. intros E. unfold invoke, bind, modify. by rewrite E. Qed.

Lemma invoke_throws arg cb s :
  body cb arg = {| reenters := []; throws := true |} ->
  invoke body arg cb s = (Throw (Thrown cb), set_calls (calls s ++ [(cb, arg)]) s).
Proof. intros E. unfold invoke, bind, modify. by rewrite E. Qed.

Lemma forEach_deliver arg l s :
  forEach l (invoke body arg) s =
  deliver body (List.map (fun cb => (cb, arg)) l) s.
Proof.
  revert s. induction l as [|cb l IH]; intros s; simpl; [done|].
  unfold bind. destruct (invoke body arg cb s) as [[[]|e] s1]; [apply IH|done].
Qed.

(** Invocations that all return are all made, in order. *)
Lemma deliver_quiet ds s :
  (forall c a, In (c, a) ds -> body c a = quiet) ->
  deliver body ds s = (Normal tt, set_calls (calls s ++ ds) s).
Proof.
  revert s. induction ds as [|[c a] ds IH]; intros s Q; simpl.
  - by rewrite app_nil_r, set_calls_id.
  - unfold bind. rewrite invoke_quiet by (apply Q; by left).
    rewrite IH by (intros; apply Q; by right).
    simpl. by rewrite set_calls_twice, <- app_assoc.
Qed.

(** The first invocation that throws is the last one made. *)
Lemma deliver_throws before cb arg after s :
  (forall c a, In (c, a) before -> body c a = quiet) ->
  body cb arg = {| reenters := []; throws := true |} ->
  deliver body (before ++ (cb, arg) :: after) s =
  (Throw (Thrown cb), set_calls (calls s ++ before ++ [(cb, arg)]) s).
Proof.
  revert s. induction before as [|[c a] l IH]; intros s Q T; simpl.
  - unfold bind. by rewrite invoke_throws.
  - unfold bind. rewrite invoke_quiet by (apply Q; by left).
    rewrite IH by (try done; intros; apply Q; by right).
    simpl. by rewrite set_calls_twice, <- app_assoc.
Qed.

Lemma forEach_quiet arg l s :
  (forall cb, In cb l -> body cb arg = quiet) ->
  forEach l (invoke body arg) s =
  (Normal tt, set_calls (calls s ++ List.map (fun cb => (cb, arg)) l) s).
Proof.
  intros Q. rewrite forEach_deliver. apply deliver_quiet.
  intros c a [cb [[= <- <-] I]]%in_map_iff. by apply Q.
Qed.

(** What [onmessage] does with a text that parses, once the reads of
    [type] and [payload] are known. *)
Lemma onmessage_parsed j type payload s :
  get_prop (of_json j) "type" = Normal type ->
  get_prop (of_json j) "payload" = Normal payload ->
  onmessage body (Doc j) s =
  try_catch (
    forEach (match type with VStr t => callbacks_for t s | _ => [] end)
            (invoke body payload) ;;;
    wildcardCallbacks <- gets (callbacks_for "*") ;;
    forEach wildcardCallbacks (invoke body (of_json j))) s.
Proof.
  intros Ht Hp. unfold onmessage, try_catch, bind, lift, gets; simpl.
  rewrite Ht.
  rewrite (forEach_ext _ (invoke body payload)); [done|].
  intros cb s0. by rewrite Hp.
Qed.

Lemma onmessage_quiet j t payload s :
  get_prop (of_json j) "type" = Normal (VStr t) ->
  get_prop (of_json j) "payload" = Normal payload ->
  (forall cb, In cb (callbacks_for t s) -> body cb payload = quiet) ->
  (forall cb, In cb (callbacks_for "*" s) -> body cb (of_json j) = quiet) ->
  onmessage body (Doc j) s =
  (Normal tt,
   set_calls (calls s
              ++ List.map (fun cb => (cb, payload)) (callbacks_for t s)
              ++ List.map (fun cb => (cb, of_json j)) (callbacks_for "*" s)) s).
Proof.
  intros Ht Hp Q1 Q2. rewrite (onmessage_parsed _ _ _ _ Ht Hp).
  unfold try_catch, bind, gets. rewrite forEach_quiet by done.
  rewrite callbacks_for_set_calls, forEach_quiet by done.
  simpl. by rewrite set_calls_twice, <- app_assoc.
Qed.

Lemma onmessage_throws j t payload before cb arg after s :
  get_prop (of_json j) "type" = Normal (VStr t) ->
  get_prop (of_json j) "payload" = Normal payload ->
  deliveries t payload (of_json j) s = before ++ (cb, arg) :: after ->
  (forall c a, In (c, a) before -> body c a = quiet) ->
  body cb arg = {| reenters := []; throws := true |} ->
  onmessage body (Doc j) s =
  (Normal tt, set_calls (calls s ++ before ++ [(cb, arg)]) s).
Proof.
  intros Ht Hp D Q T. rewrite (onmessage_parsed _ _ _ _ Ht Hp).
  unfold try_catch, bind, gets. rewrite forEach_deliver.
  unfold deliveries in D.
  apply app_eq_app in D as [l [[E1 E2]|[E1 E2]]].
  - destruct l as [|d l].
    + rewrite app_nil_r in E1. simpl in E2.
      rewrite E1, deliver_quiet by done.
      rewrite callbacks_for_set_calls, forEach_deliver, <- E2.
      rewrite (deliver_throws [] cb arg after) by done.
      simpl. by rewrite set_calls_twice, <- app_assoc.
    + injection E2 as <- _. by rewrite E1, (deliver_throws before cb arg l).
  - rewrite deliver_quiet
      by (intros c a I; apply Q; rewrite E1; apply in_or_app; by left).
    rewrite callbacks_for_set_calls, forEach_deliver, E2.
    rewrite (deliver_throws l cb arg after)
      by (try done; intros c a I; apply Q; rewrite E1; apply in_or_app; by right).
    simpl. rewrite set_calls_twice, E1. by rewrite <- !app_assoc.
Qed.

End Dispatch.

(** C1.  For a decoded message, that is a text that parses to an object
    whose [type] is a string [t], whose subscribers under [t] and under
    ['*'] return normally without re-entering the registry: the handler
    invokes the callbacks registered under [t], one invocation per
    entry, in registration order, each with [message.payload], and then
    the callbacks registered under ['*'], one invocation per entry, in
    registration order, each with the whole message; nothing else
    changes. *)
Theorem dispatch_in_registration_order body j t payload s :
  get_prop (of_json j) "type" = Normal (VStr t) ->
  get_prop (of_json j) "payload" = Normal payload ->
  (forall cb, In cb (callbacks_for t s) -> body cb payload = quiet) ->
  (forall cb, In cb (callbacks_for "*" s) -> body cb (of_json j) = quiet) ->
  onmessage body (Doc j) s =
  (Normal tt,
   set_calls (calls s
              ++ List.map (fun cb => (cb, payload)) (callbacks_for t s)
              ++ List.map (fun cb => (cb, of_json j)) (callbacks_for "*" s)) s).
Proof. apply onmessage_quiet. Qed.

Lemma dispatch_in_registration_order_chat :
  calls (snd (onmessage all_quiet (Doc chat_hi) three_subscribers)) =
  [(1%nat, VStr "hi"); (3%nat, VStr "hi"); (2%nat, of_json chat_hi)].
Proof.
  rewrite (dispatch_in_registration_order all_quiet chat_hi "chat" (VStr "hi")
             three_subscribers).
  - reflexivity.
  - reflexivity.
  - reflexivity.
  - intros; reflexivity.
  - intros; reflexivity.
Defined.

(** C10.  For a message whose [type] is the string ['*'], with
    subscribers that return normally, each entry registered under ['*']
    is invoked twice by one dispatch: first all of them by the typed
    lookup, with [message.payload], then all of them by the wildcard
    lookup, with the whole message. *)
Theorem star_typed_message_delivered_twice body j payload s :
  get_prop (of_json j) "type" = Normal (VStr "*") ->
  get_prop (of_json j) "payload" = Normal payload ->
  (forall cb, In cb (callbacks_for "*" s) ->
              body cb payload = quiet /\ body cb (of_json j) = quiet) ->
  calls (snd (onmessage body (Doc j) s)) =
  calls s
  ++ List.map (fun cb => (cb, payload)) (callbacks_for "*" s)
  ++ List.map (fun cb => (cb, of_json j)) (callbacks_for "*" s).
Proof.
  intros Ht Hp Q.
  rewrite (onmessage_quiet body j "*" payload s Ht Hp);
    [done | intros cb H; by apply Q | intros cb H; by apply Q].
Qed.

Lemma star_typed_message_delivered_twice_hi :
  calls (snd (onmessage all_quiet (Doc star_hi) three_subscribers)) =
  [(2%nat, VStr "hi"); (2%nat, of_json star_hi)].
Proof.
  rewrite (star_typed_message_delivered_twice all_quiet star_hi (VStr "hi")
             three_subscribers).
  - reflexivity.
  - reflexivity.
  - reflexivity.
  - intros; split; reflexivity.
Defined.

(** C5 (as amended).  When a subscriber throws during the dispatch of a
    message, the handler's one [try]/[catch] takes the exception: the
    handler completes, the invocations that come before the thrower in
    dispatch order (the list of the message's type, then the wildcard
    list) have been made, the thrower has been invoked, and neither a
    later entry of the type's list nor a later wildcard subscriber is
    invoked for this message; the rest of the state is as before. *)
Theorem dispatch_stops_at_throwing_subscriber body j t payload before cb arg after s :
  get_prop (of_json j) "type" = Normal (VStr t) ->
  get_prop (of_json j) "payload" = Normal payload ->
  deliveries t payload (of_json j) s = before ++ (cb, arg) :: after ->
  (forall c a, In (c, a) before -> body c a = quiet) ->
  body cb arg = {| reenters := []; throws := true |} ->
  onmessage body (Doc j) s =
  (Normal tt, set_calls (calls s ++ before ++ [(cb, arg)]) s).
Proof. apply onmessage_throws. Qed.

Lemma dispatch_stops_at_throwing_subscriber_chat :
  onmessage first_throws (Doc chat_hi) thrower_first =
  (Normal tt, set_calls [(1%nat, VStr "hi")] thrower_first).
Proof.
  rewrite (dispatch_stops_at_throwing_subscriber first_throws chat_hi "chat"
             (VStr "hi") [] 1%nat (VStr "hi")
             [(2%nat, VStr "hi"); (3%nat, of_json chat_hi)] thrower_first).
  - reflexivity.
  - reflexivity.
  - reflexivity.
  - reflexivity.
  - intros c a [].
  - reflexivity.
Defined.

(** C5, as stated, fails: with subscribers 1 and 2 under ['chat'] and 3
    under ['*'], where 1 throws, the message reaches 1 only. *)
Lemma throwing_subscriber_blocks_the_rest :
  callbacks_for "chat" thrower_first = [1%nat; 2%nat]
  /\ callbacks_for "*" thrower_first = [3%nat]
  /\ calls thrower_first = []
  /\ calls (step first_throws (SocketMessage 0 (Doc chat_hi)) thrower_first) =
     [(1%nat, VStr "hi")].
Proof. vm_compute. repeat split. Qed.

(** C6 (as amended).  A frame that is not a JSON text, or that is the
    JSON text [null], is dropped: the handler completes, no subscriber
    is invoked, and no cell of the hook, no socket and no timer
    changes. *)
Theorem undecodable_frame_dropped body s :
  onmessage body Malformed s = (Normal tt, s)
  /\ onmessage body (Doc JNull) s = (Normal tt, s)
  /\ (forall k, step body (SocketMessage k Malformed) s = s)
  /\ (forall k, step body (SocketMessage k (Doc JNull)) s = s).
Proof.
  repeat split; try reflexivity;
    intros k; simpl; by destruct (readyState_of k s) as [[]|].
Qed.

(** C6, as stated, fails: the text [5] parses, it is not of the shape
    [{ type, payload }], and the wildcard subscriber is invoked with
    it; so is it for an object without [type]. *)
Lemma misshapen_frame_reaches_wildcard :
  let s := step all_quiet (CallSubscribe "*" 1%nat) page_open in
  get_prop (of_json (JNum 5)) "type" = Normal VUndefined
  /\ calls s = []
  /\ calls (step all_quiet (SocketMessage 0 (Doc (JNum 5))) s) = [(1%nat, VNum 5)]
  /\ calls (step all_quiet (SocketMessage 0 (Doc (JObj [("foo"%string, JNum 1)]))) s) =
     [(1%nat, VObj [("foo"%string, VNum 1)])].
Proof. vm_compute. repeat split. Qed.

(** ** Send gate *)

Lemma sendMessage_cases type payload s :
  sendMessage type payload s =
  if socket_open s
  then match socketRef s, JSON_stringify_message type payload with
       | Some k, Normal text => (Normal true, WebSocket_send k text s)
       | _, Throw e => (Throw e, s)
       | None, _ => (Normal false, s)
       end
  else (Normal false, s).
Proof.
  unfold sendMessage, bind, gets, lift, modify, ret.
  destruct (socket_open s) eqn:O; [|done].
  unfold socket_open in O. destruct (socketRef s) as [k|]; [|done].
  by destruct (JSON_stringify_message type payload).
Qed.

Lemma sent_after_send k text s :
  sent <$> sockets (WebSocket_send k text s) !! k =
  (fun w => sent w ++ [text]) <$> sockets s !! k.
Proof.
  unfold WebSocket_send; simpl. rewrite list_lookup_alter_eq.
  by destruct (sockets s !! k).
Qed.

(** C4.  [sendMessage] returns [false] and changes nothing, so writes
    nothing, whenever the current socket is not open, which includes
    the case of no socket at all; when it is open and [{ type, payload }]
    has an encoding, [sendMessage] returns [true] and the encoding is
    appended to what was handed to the current socket. *)
Theorem sendMessage_gate type payload s :
  (socket_open s = false -> sendMessage type payload s = (Normal false, s))
  /\ (socketRef s = None -> sendMessage type payload s = (Normal false, s))
  /\ (forall k text,
        socket_open s = true ->
        socketRef s = Some k ->
        JSON_stringify_message type payload = Normal text ->
        sendMessage type payload s = (Normal true, WebSocket_send k text s)
        /\ sent <$> sockets (WebSocket_send k text s) !! k =
           (fun w => sent w ++ [text]) <$> sockets s !! k).
Proof.
  rewrite sendMessage_cases. split; [|split].
  - by intros ->.
  - intros E. unfold socket_open. by rewrite E.
  - intros k text O R E. rewrite O, R, E. split; [done|].
    apply sent_after_send.
Qed.

Lemma sendMessage_gate_examples :
  sendMessage "mark" (VNum 7) (initial "https:" "bingo.example") =
    (Normal false, initial "https:" "bingo.example")
  /\ sendMessage "mark" (VNum 7) page = (Normal false, page)
  /\ fst (sendMessage "mark" (VNum 7) page_open) = Normal true
  /\ sent <$> sockets (snd (sendMessage "mark" (VNum 7) page_open)) !! 0%nat =
     Some [JObj [("type"%string, JStr "mark"); ("payload"%string, JNum 7)]].
Proof.
  pose proof (sendMessage_gate "mark" (VNum 7) (initial "https:" "bingo.example"))
    as (_ & A & _).
  pose proof (sendMessage_gate "mark" (VNum 7) page) as (B & _ & _).
  pose proof (sendMessage_gate "mark" (VNum 7) page_open) as (_ & _ & C).
  specialize (A eq_refl). specialize (B eq_refl).
  destruct (C 0%nat (JObj [("type"%string, JStr "mark"); ("payload"%string, JNum 7)])
              eq_refl eq_refl eq_refl) as [C1 C2].
  split; [exact A | split; [exact B | split]].
  - rewrite C1. reflexivity.
  - rewrite C1. simpl snd. rewrite C2. reflexivity.
Defined.

(** C8 (as amended).  [sendMessage] throws exactly when the current
    socket is open and [{ type, payload }] has no JSON encoding, and
    then with the exception of [JSON.stringify]; in every other case it
    returns, and the boolean it returns tells whether the socket was
    open.  Nothing is written when it throws. *)
Theorem sendMessage_throws_only_unencodable type payload s :
  (forall e, fst (sendMessage type payload s) = Throw e <->
             socket_open s = true /\ JSON_stringify_message type payload = Throw e)
  /\ (forall b, fst (sendMessage type payload s) = Normal b -> b = socket_open s)
  /\ (forall e, fst (sendMessage type payload s) = Throw e ->
                snd (sendMessage type payload s) = s).
Proof.
  rewrite sendMessage_cases.
  destruct (socket_open s) eqn:O.
  - assert (exists k, socketRef s = Some k) as [k R].
    { unfold socket_open in O. destruct (socketRef s); [eauto|done]. }
    rewrite R.
    destruct (JSON_stringify_message type payload) as [text|e']; simpl.
    + split; [|split].
      * intros e; split; [done | by intros [_ ?]].
      * by intros b [= <-].
      * done.
    + split; [|split].
      * intros e; split; [by intros [= ->] | by intros [_ [= ->]]].
      * done.
      * done.
  - simpl. split; [|split].
    + intros e; split; [done | by intros [? _]].
    + by intros b [= <-].
    + done.
Qed.

Lemma sendMessage_throws_only_unencodable_mark :
  fst (sendMessage "mark" (VNum 7) page_open) = Normal true
  /\ fst (sendMessage "mark" (VNum 7) page) = Normal false.
Proof.
  pose proof (sendMessage_throws_only_unencodable "mark" (VNum 7) page_open)
    as (_ & A & _).
  pose proof (sendMessage_throws_only_unencodable "mark" (VNum 7) page)
    as (_ & B & _).
  split.
  - rewrite (A true eq_refl). reflexivity.
  - rewrite (B false eq_refl). reflexivity.
Defined.

(** C8, as stated, fails: on an open socket a BigInt payload makes
    [JSON.stringify] throw, and [sendMessage] lets the exception out. *)
Lemma sendMessage_throws_on_bigint :
  socket_open page_open = true
  /\ sendMessage "mark" (VBigInt 10) page_open = (Throw TypeError, page_open).
Proof. vm_compute. split; reflexivity. Qed.

(** ** What the handlers leave alone *)

Section Respects.

(** A relation between the state before and the state after. *)
Variable R : state -> state -> Prop.
Hypothesis R_refl : forall s, R s s.
Hypothesis R_trans : forall s1 s2 s3, R s1 s2 -> R s2 s3 -> R s1 s3.

Lemma respects_ret {A} (a : A) : respects R (ret a).
Proof. intros s. apply R_refl. Qed.

Lemma respects_raise {A} e : respects R (@raise A e).
Proof. intros s. apply R_refl. Qed.

Lemma respects_lift {A} (c : completion A) : respects R (lift c).
Proof. intros s. apply R_refl. Qed.

Lemma respects_gets {A} (f : state -> A) : respects R (gets f).
Proof. intros s. apply R_refl. Qed.

Lemma respects_modify f : (forall s, R s (f s)) -> respects R (modify f).
Proof. intros H s. apply H. Qed.

Lemma respects_bind {A B} (m : M A) (k : A -> M B) :
  respects R m -> (forall a, respects R (k a)) -> respects R (bind m k).
Proof.
  intros Hm Hk s. unfold bind. specialize (Hm s).
  destruct (m s) as [[a|e] s1]; simpl in *; [|done].
  eapply R_trans; [exact Hm | apply Hk].
Qed.

Lemma respects_try_catch m : respects R m -> respects R (try_catch m).
Proof.
  intros Hm s. unfold try_catch. specialize (Hm s).
  by destruct (m s) as [[a|e] s1].
Qed.

Lemma respects_forEach l f :
  (forall cb, respects R (f cb)) -> respects R (forEach l f).
Proof.
  intros Hf. induction l as [|cb l IH]; simpl.
  - apply respects_ret.
  - apply respects_bind; [apply Hf | intros _; apply IH].
Qed.

Lemma respects_fold {A} (f : state -> A -> state) l :
  (forall s a, In a l -> R s (f s a)) -> forall s, R s (fold_left f l s).
Proof.
  induction l as [|a l IH]; intros H s; simpl; [apply R_refl|].
  eapply R_trans; [apply H; by left|].
  apply IH. intros; apply H; by right.
Qed.

(** [onmessage] respects what logging a call and the subscribers'
    calls into the registry respect. *)
Lemma respects_onmessage body data :
  (forall l s, R s (set_calls l s)) ->
  (forall cb arg c s, In c (reenters (body cb arg)) -> R s (registry_step c s)) ->
  respects R (onmessage body data).
Proof.
  intros Hlog Hreg.
  assert (forall arg cb, respects R (invoke body arg cb)) as Hinv.
  { intros arg cb. unfold invoke.
    apply respects_bind; [apply respects_modify; intros; apply Hlog|intros _].
    apply respects_bind.
    - apply respects_modify. intros s.
      apply respects_fold. intros; by eapply Hreg.
    - intros _. destruct (throws _); [apply respects_raise|apply respects_ret]. }
  unfold onmessage. apply respects_try_catch.
  apply respects_bind; [apply respects_lift|intros message].
  apply respects_bind; [apply respects_lift|intros type].
  apply respects_bind; [apply respects_gets|intros callbacks].
  apply respects_bind.
  - apply respects_forEach. intros cb.
    apply respects_bind; [apply respects_lift|intros payload]. apply Hinv.
  - intros _. apply respects_bind; [apply respects_gets|intros w].
    apply respects_forEach. apply Hinv.
Qed.

End Respects.

Lemma onmessage_connection body data s :
  connection_of (snd (onmessage body data s)) = connection_of s.
Proof.
  apply (respects_onmessage (fun s s' => connection_of s' = connection_of s)).
  - done.
  - intros s1 s2 s3 H1 H2. by rewrite H2.
  - done.
  - by intros cb arg [] ? ?.
Qed.

Lemma keeps_refl s : keeps s s.
Proof. by intros t cb. Qed.

Lemma keeps_trans s1 s2 s3 : keeps s1 s2 -> keeps s2 s3 -> keeps s1 s3.
Proof. intros H1 H2 t cb H. by apply H2, H1. Qed.

Lemma keeps_same_registry s s' :
  messageCallbacksRef s' = messageCallbacksRef s -> keeps s s'.
Proof. intros E t cb. unfold callbacks_for. by rewrite E. Qed.

Lemma keeps_add type cb s : keeps s (snd (addMessageListener type cb s)).
Proof.
  intros t c H. rewrite callbacks_for_add. case_decide; [|done].
  apply in_or_app. by left.
Qed.

Lemma onmessage_keeps body data s :
  never_unsubscribes body -> keeps s (snd (onmessage body data s)).
Proof.
  intros N. apply (respects_onmessage keeps keeps_refl keeps_trans).
  - intros l s0. by apply keeps_same_registry.
  - intros cb arg [type c|l] s0 H.
    + apply keeps_add.
    + by apply N in H.
Qed.

Lemma connectWebSocket_registry s :
  messageCallbacksRef (connectWebSocket s) = messageCallbacksRef s.
Proof.
  unfold connectWebSocket, WebSocket_close, new_WebSocket.
  repeat case_match; reflexivity.
Qed.

Lemma run_timers_registry fuel s :
  messageCallbacksRef (run_timers fuel s) = messageCallbacksRef s.
Proof.
  revert s. induction fuel as [|n IH]; intros s; simpl; [done|].
  destruct (due_timer s); [|done].
  by rewrite IH, connectWebSocket_registry.
Qed.

Lemma elapse_registry ms s :
  messageCallbacksRef (elapse ms s) = messageCallbacksRef s.
Proof. unfold elapse. by rewrite run_timers_registry. Qed.

Lemma step_keeps body e s :
  never_unsubscribes body -> unsubscribes e = false -> keeps s (step body e s).
Proof.
  intros N U. destruct e as [k|k data|k code|k|ms|type payload|type cb|l|]; simpl.
  - destruct (readyState_of k s) as [[]|]; by apply keeps_same_registry.
  - destruct (readyState_of k s) as [[]|];
      try apply keeps_refl. by apply onmessage_keeps.
  - destruct (readyState_of k s) as [[]|]; try apply keeps_refl;
      apply keeps_same_registry; unfold onclose; by case_match.
  - destruct (readyState_of k s) as [[]|]; by apply keeps_same_registry.
  - apply keeps_same_registry, elapse_registry.
  - apply keeps_same_registry. rewrite sendMessage_cases.
    by repeat case_match.
  - apply keeps_add.
  - done.
  - apply keeps_same_registry. unfold cleanup, WebSocket_close.
    by repeat case_match.
Qed.

(** C9.  Replacing the socket leaves the registry as it is:
    [connectWebSocket] does not touch it, whether called directly or by
    the reconnect timer when time passes, and neither does a close
    event.  Over any sequence of events in which no function returned
    by [addMessageListener] is invoked, by the consumer or by a
    subscriber, every entry that was registered is still registered. *)
Theorem registry_persists_across_reconnects body s :
  messageCallbacksRef (connectWebSocket s) = messageCallbacksRef s
  /\ (forall ms, messageCallbacksRef (step body (Elapse ms) s) = messageCallbacksRef s)
  /\ (forall k code,
        messageCallbacksRef (step body (SocketClose k code) s) = messageCallbacksRef s)
  /\ (forall es,
        never_unsubscribes body ->
        forallb (fun e => negb (unsubscribes e)) es = true ->
        keeps s (run body es s)).
Proof.
  split; [apply connectWebSocket_registry|].
  split; [intros ms; apply elapse_registry|].
  split.
  - intros k code; simpl.
    destruct (readyState_of k s) as [[]|]; try done; unfold onclose; by case_match.
  - intros es N. revert s. induction es as [|e es IH]; intros s F; simpl.
    + apply keeps_refl.
    + simpl in F. apply andb_prop in F as [F1 F2].
      eapply keeps_trans; [|by apply IH].
      apply step_keeps; [done|]. by destruct (unsubscribes e).
Qed.

Lemma registry_persists_across_reconnects_chat :
  In 3%nat (callbacks_for "chat"
    (run all_quiet
       [SocketClose 0 1006; Elapse 2000; SocketOpen 1; CallSubscribe "chat" 4%nat;
        SocketMessage 1 (Doc chat_hi); SocketClose 1 1006; Elapse 2000]
       three_subscribers)).
Proof.
  pose proof (registry_persists_across_reconnects all_quiet three_subscribers)
    as (_ & _ & _ & K).
  apply K.
  - intros cb arg l [].
  - reflexivity.
  - vm_compute. auto.
Defined.

(** ** One socket, one timer *)

Lemma orderly_ext s s' :
  socketRef s' = socketRef s ->
  reconnectTimeoutRef s' = reconnectTimeoutRef s ->
  (forall k, readyState_of k s' = readyState_of k s) ->
  timers s' = timers s ->
  orderly s -> orderly s'.
Proof.
  intros E1 E2 E3 E4 [A B]. unfold orderly, all_closed.
  rewrite E1, E2, E4. setoid_rewrite E3. by split.
Qed.

Lemma readyState_of_set k r s k' :
  readyState_of k' (set_readyState k r s) =
  if decide (k = k') then (fun _ => r) <$> readyState_of k' s else readyState_of k' s.
Proof.
  unfold readyState_of, set_readyState; simpl. rewrite list_lookup_alter.
  case_decide; [subst|done]. by destruct (sockets s !! k').
Qed.

Lemma readyState_of_send k text s k' :
  readyState_of k' (WebSocket_send k text s) = readyState_of k' s.
Proof.
  unfold readyState_of, WebSocket_send; simpl. rewrite list_lookup_alter.
  case_decide; [subst|done]. by destruct (sockets s !! k').
Qed.

Lemma all_closed_not_open s : all_closed s -> socket_open s = false.
Proof.
  intros C. unfold socket_open.
  destruct (socketRef s) as [k|]; [|done].
  destruct (readyState_of k s) as [r|] eqn:E; [|done].
  by rewrite (C _ _ E).
Qed.

Lemma connectWebSocket_timers s :
  timers (connectWebSocket s) =
  match reconnectTimeoutRef s with
  | Some h => List.filter (fun t => negb (Pos.eqb (handle t) h)) (timers s)
  | None => timers s
  end.
Proof.
  unfold connectWebSocket, WebSocket_close, new_WebSocket.
  repeat case_match; reflexivity.
Qed.

Lemma connectWebSocket_connects s :
  connects (connectWebSocket s) = S (connects s).
Proof.
  unfold connects, connectWebSocket, WebSocket_close, new_WebSocket, set_readyState.
  repeat case_match; simpl; rewrite length_app, ?length_alter; simpl; lia.
Qed.

Lemma connectWebSocket_not_open s :
  socket_open s = false ->
  socketRef (connectWebSocket s) = Some (length (sockets s))
  /\ sockets (connectWebSocket s) =
     sockets s ++ [{| url := wsUrl s; readyState := CONNECTING; sent := [] |}].
Proof.
  intros O. unfold connectWebSocket, new_WebSocket.
  destruct (reconnectTimeoutRef s) as [h|].
  - change (socket_open (set_reconnectTimeoutRef None (clearTimeout h s)))
      with (socket_open s). by rewrite O.
  - by rewrite O.
Qed.

(** With every socket closed, [connectWebSocket] adds a connecting
    socket and makes it the current one. *)
Lemma connectWebSocket_all_closed s :
  all_closed s ->
  socketRef (connectWebSocket s) = Some (length (sockets s))
  /\ forall k r, readyState_of k (connectWebSocket s) = Some r ->
                 r <> CLOSED -> k = length (sockets s).
Proof.
  intros C.
  destruct (connectWebSocket_not_open s (all_closed_not_open s C)) as [R E].
  split; [done|]. intros k r. unfold readyState_of. rewrite E. intros L N.
  destruct (decide (k < length (sockets s))%nat) as [Lt|Ge].
  - rewrite lookup_app_l in L by done. by apply C in L.
  - rewrite lookup_app_r in L by lia.
    destruct (k - length (sockets s))%nat eqn:D; [lia|done].
Qed.

Lemma orderly_connectWebSocket s :
  all_closed s -> timers s = [] -> orderly (connectWebSocket s).
Proof.
  intros C T. destruct (connectWebSocket_all_closed s C) as [R L]. split.
  - intros k r E N. rewrite R. f_equal. symmetry. by eapply L.
  - left. rewrite connectWebSocket_timers, T. by destruct (reconnectTimeoutRef s).
Qed.

Lemma orderly_mounted protocol host : orderly (mounted protocol host).
Proof. apply orderly_connectWebSocket; [|done]. by intros [|k] r. Qed.

(** A socket that can still deliver events is the current one, and no
    reconnect is pending beside it. *)
Lemma orderly_live s k r :
  orderly s -> readyState_of k s = Some r -> r <> CLOSED ->
  timers s = [] /\ socketRef s = Some k
  /\ forall k' r', readyState_of k' s = Some r' -> k' <> k -> r' = CLOSED.
Proof.
  intros [A B] E N. split; [|split].
  - destruct B as [|(t & _ & _ & C)]; [done|]. by apply C in E.
  - by eapply A.
  - intros k' r' E' D. destruct (decide (r' = CLOSED)) as [|N']; [done|].
    pose proof (A _ _ E N). pose proof (A _ _ E' N'). congruence.
Qed.

Lemma orderly_set_readyState s k r0 r :
  orderly s -> readyState_of k s = Some r0 -> r0 <> CLOSED ->
  orderly (set_readyState k r s).
Proof.
  intros O E N. destruct (orderly_live s k r0 O E N) as (T & R & _).
  destruct O as [A _]. split; [|by left].
  intros k' r'. rewrite readyState_of_set.
  case_decide; [by subst|]. apply A.
Qed.

Lemma all_closed_set_CLOSED s k r0 :
  orderly s -> readyState_of k s = Some r0 -> r0 <> CLOSED ->
  all_closed (set_readyState k CLOSED s).
Proof.
  intros O E N. destruct (orderly_live s k r0 O E N) as (_ & _ & C).
  intros k' r'. rewrite readyState_of_set. case_decide.
  - subst. rewrite E. by intros [= <-].
  - intros E'. by eapply C.
Qed.

Lemma orderly_onclose code s :
  all_closed s -> timers s = [] -> orderly (onclose code s).
Proof.
  intros C T. unfold onclose, setTimeout. case_match; simpl.
  - split.
    + intros k r E N. by apply C in E.
    + right. eexists. simpl. rewrite T. split; [done|]. split; [done|]. exact C.
  - split.
    + intros k r E N. by apply C in E.
    + by left.
Qed.

Lemma orderly_cleanup s : orderly s -> orderly (cleanup s).
Proof.
  intros O. unfold cleanup.
  set (s1 := match reconnectTimeoutRef s with
             | Some h => clearTimeout h s
             | None => s
             end).
  assert (orderly s1) as O1.
  { destruct O as [A B]. split.
    - intros k r. subst s1. destruct (reconnectTimeoutRef s); apply A.
    - left. subst s1. destruct B as [T|(t & T & R & _)].
      + destruct (reconnectTimeoutRef s); simpl; by rewrite ?T.
      + rewrite R; simpl. rewrite T; simpl. by rewrite Pos.eqb_refl. }
  clearbody s1. destruct (socket_open s1) eqn:SO; [|done].
  unfold socket_open in SO.
  destruct (socketRef s1) as [k|]; [|done]. unfold WebSocket_close.
  destruct (readyState_of k s1) as [[]|] eqn:E; try done.
  by eapply orderly_set_readyState.
Qed.

Lemma orderly_elapse ms s : orderly s -> orderly (elapse ms s).
Proof.
  intros O. unfold elapse.
  set (s1 := set_now (now s + Z.max 0 ms) s).
  assert (orderly s1) as O1 by (by apply (orderly_ext s)).
  clearbody s1. destruct O1 as [A [T|(t & T & R & C)]].
  - rewrite T. simpl. split; [done|by left].
  - rewrite T. simpl. unfold due_timer. rewrite T. simpl.
    destruct (due t <=? now s1); [|split; [done|right; eauto]].
    apply orderly_connectWebSocket.
    + exact C.
    + simpl. by rewrite Pos.eqb_refl.
Qed.

(** The invariant holds all along the life of the hook. *)
Lemma orderly_step body e s : orderly s -> orderly (step body e s).
Proof.
  intros O. destruct e as [k|k data|k code|k|ms|type payload|type cb|l|]; simpl.
  - destruct (readyState_of k s) as [[]|] eqn:E; try done.
    apply (orderly_ext (set_readyState k OPEN s)); try done.
    by eapply orderly_set_readyState.
  - destruct (readyState_of k s) as [[]|] eqn:E; try done.
    pose proof (onmessage_connection body data s) as F.
    unfold connection_of in F. simplify_eq.
    apply (orderly_ext s); try done.
    intros k'. unfold readyState_of. congruence.
  - destruct (readyState_of k s) as [r|] eqn:E; [|done].
    destruct (decide (r = CLOSED)) as [->|N]; [done|].
    assert (orderly (onclose code (set_readyState k CLOSED s))).
    { apply orderly_onclose.
      - by eapply all_closed_set_CLOSED.
      - by destruct (orderly_live s k r O E N) as (T & _). }
    by destruct r.
  - destruct (readyState_of k s) as [[]|]; try done; by apply (orderly_ext s).
  - by apply orderly_elapse.
  - rewrite sendMessage_cases. repeat case_match; simpl; try done.
    apply (orderly_ext s); try done. intros k'. apply readyState_of_send.
  - by apply (orderly_ext s).
  - by apply (orderly_ext s).
  - by apply orderly_cleanup.
Qed.

Lemma orderly_run body es s : orderly s -> orderly (run body es s).
Proof.
  revert s. induction es as [|e es IH]; intros s O; simpl; [done|].
  by apply IH, orderly_step.
Qed.

(** ** Reconnection *)

Lemma connectWebSocket_timer_ref s :
  reconnectTimeoutRef (connectWebSocket s) = None.
Proof.
  unfold connectWebSocket, WebSocket_close, new_WebSocket.
  repeat case_match; simpl; try reflexivity; assumption.
Qed.

Lemma elapse_no_timer ms s :
  timers s = [] -> elapse ms s = set_now (now s + Z.max 0 ms) s.
Proof. intros T. unfold elapse; simpl. by rewrite T. Qed.

Lemma elapse_one_timer ms s t :
  timers s = [t] ->
  elapse ms s =
  if due t <=? now s + Z.max 0 ms
  then connectWebSocket
         (set_timers [] (next_handle s) (set_now (now s + Z.max 0 ms) s))
  else set_now (now s + Z.max 0 ms) s.
Proof.
  intros T. unfold elapse; simpl. rewrite T; simpl.
  unfold due_timer; simpl. rewrite T; simpl.
  destruct (due t <=? now s + Z.max 0 ms); [|done].
  by rewrite Pos.eqb_refl.
Qed.

(** C7 (as amended).  [connectWebSocket], called in any state, cancels
    the timer that [reconnectTimeoutRef] holds, leaves the other
    pending timers as they are, and empties the ref.  Along the life of
    a hook whose mount effect ran once (events of its sockets, time
    passing, calls of the consumer, unmount), at most one reconnect
    timer is pending at any time; [connectWebSocket] called in any such
    state leaves no timer pending, so that no reconnect fires
    afterwards however much time passes; and one passing of time fires
    at most one reconnect. *)
Theorem connect_cancels_the_held_timer :
  (forall s,
     reconnectTimeoutRef (connectWebSocket s) = None
     /\ timers (connectWebSocket s) =
        match reconnectTimeoutRef s with
        | Some h => List.filter (fun t => negb (Pos.eqb (handle t) h)) (timers s)
        | None => timers s
        end
     /\ connects (connectWebSocket s) = S (connects s))
  /\ (forall body protocol host es,
        let s := run body es (mounted protocol host) in
        (length (timers s) <= 1)%nat
        /\ (forall t, In t (timers s) -> reconnectTimeoutRef s = Some (handle t))
        /\ timers (connectWebSocket s) = []
        /\ (forall ms, connects (elapse ms (connectWebSocket s)) = S (connects s))
        /\ (forall ms, (connects (step body (Elapse ms) s) <= S (connects s))%nat)).
Proof.
  split.
  - intros s. split; [apply connectWebSocket_timer_ref|].
    split; [apply connectWebSocket_timers|apply connectWebSocket_connects].
  - intros body protocol host es s.
    assert (orderly s) as [A B] by apply orderly_run, orderly_mounted.
    assert (timers (connectWebSocket s) = []) as T0.
    { rewrite connectWebSocket_timers.
      destruct B as [T|(t & T & R & _)].
      - rewrite T. by destruct (reconnectTimeoutRef s).
      - rewrite R, T; simpl. by rewrite Pos.eqb_refl. }
    split; [|split; [|split; [|split]]].
    + destruct B as [->|(t & -> & _)]; simpl; lia.
    + intros t I. destruct B as [T|(t' & T & R & _)].
      * rewrite T in I. by destruct I.
      * rewrite T in I. destruct I as [<-|[]]. done.
    + done.
    + intros ms. rewrite (elapse_no_timer _ _ T0). unfold connects at 1; simpl.
      apply connectWebSocket_connects.
    + intros ms; simpl. destruct B as [T|(t & T & _)].
      * rewrite (elapse_no_timer _ _ T). unfold connects; simpl. lia.
      * rewrite (elapse_one_timer _ _ _ T). case_match.
        -- rewrite connectWebSocket_connects. unfold connects; simpl. lia.
        -- unfold connects; simpl. lia.
Qed.

Lemma connect_cancels_the_held_timer_pending :
  let s := step all_quiet (SocketClose 0 1006) (mounted "https:" "bingo.example") in
  timers s = [{| handle := 1%positive; due := 2000 |}]
  /\ reconnectTimeoutRef s = Some 1%positive
  /\ timers (connectWebSocket s) = []
  /\ reconnectTimeoutRef (connectWebSocket s) = None
  /\ connects (connectWebSocket s) = 2%nat
  /\ connects (elapse 5000 (connectWebSocket s)) = 2%nat.
Proof.
  intros s.
  destruct connect_cancels_the_held_timer as [A B].
  destruct (A s) as (A1 & _ & A3).
  destruct (B all_quiet "https:" "bingo.example" [SocketClose 0 1006])
    as (_ & _ & B3 & B4 & _).
  split; [reflexivity|]. split; [reflexivity|].
  split; [exact B3|]. split; [exact A1|].
  split; [exact A3|exact (B4 5000)].
Defined.

(** C7, as stated, fails: the close handler stores the new timer in the
    ref without clearing the one the ref held, and [connectWebSocket]
    closes the previous socket only if it is open.  When the mount
    effect has run twice while the first socket was still connecting,
    both sockets can close uncleanly, and two reconnect timers are
    pending together, of which the ref holds the second. *)
Lemma two_reconnect_timers_pending :
  let s0 := mounted_twice "https:" "bingo.example" in
  let s := run all_quiet [SocketClose 0 1006; SocketClose 1 1006] s0 in
  readyState_of 0 s0 = Some CONNECTING
  /\ readyState_of 1 s0 = Some CONNECTING
  /\ timers s = [{| handle := 1%positive; due := 2000 |};
                 {| handle := 2%positive; due := 2000 |}]
  /\ reconnectTimeoutRef s = Some 2%positive
  /\ ~ (length (timers s) <= 1)%nat.
Proof. vm_compute. repeat split; try reflexivity. lia. Qed.



(** * Further properties of the handlers *)

(** ** The message handler as a whole *)

(** Whatever the frame and whatever the subscribers do, throw or call
    back into the registry, [onmessage] itself completes, and it changes
    neither the status flag, the error, the refs to socket and timer,
    the sockets, the timers nor the clock. *)
Theorem onmessage_contains_failures body data s :
  fst (onmessage body data s) = Normal tt
  /\ connection_of (snd (onmessage body data s)) = connection_of s.
Proof.
  split; [|apply onmessage_connection].
  unfold onmessage, try_catch. by case_match; case_match.
Qed.

Lemma get_prop_both v name ty :
  get_prop v name = Normal ty -> exists p, get_prop v "payload" = Normal p.
Proof. destruct v; simpl; intros H; try done; eauto. Qed.

(** A frame that parses to a value other than [null] whose [type] is
    not a string (a number, a string, an array, an object without
    [type]) finds no typed list: it is delivered to the wildcard
    subscribers only, in registration order, as the whole value. *)
Theorem untyped_frame_reaches_wildcard_only body j ty s :
  get_prop (of_json j) "type" = Normal ty ->
  (forall t, ty <> VStr t) ->
  (forall cb, In cb (callbacks_for "*" s) -> body cb (of_json j) = quiet) ->
  onmessage body (Doc j) s =
  (Normal tt,
   set_calls (calls s ++ List.map (fun cb => (cb, of_json j)) (callbacks_for "*" s)) s).
Proof.
  intros Ht N Q. destruct (get_prop_both _ _ _ Ht) as [p Hp].
  rewrite (onmessage_parsed body _ _ _ _ Ht Hp).
  assert (match ty with VStr t => callbacks_for t s | _ => [] end = []) as ->.
  { destruct ty; try done. by destruct (N s0). }
  unfold try_catch, bind, gets; simpl.
  by rewrite forEach_quiet.
Qed.

Lemma untyped_frame_reaches_wildcard_only_array :
  calls (snd (onmessage all_quiet (Doc (JArr [JStr "chat"])) three_subscribers)) =
  [(2%nat, VArr [VStr "chat"])].
Proof.
  rewrite (untyped_frame_reaches_wildcard_only all_quiet (JArr [JStr "chat"])
             VUndefined three_subscribers).
  - reflexivity.
  - reflexivity.
  - intros t; discriminate.
  - intros; reflexivity.
Defined.

(** ** Subscribers that call back into the registry *)

Lemma registry_step_set_calls c l s :
  registry_step c (set_calls l s) = set_calls l (registry_step c s).
Proof. by destruct c. Qed.

Lemma registry_steps_set_calls cs l s :
  fold_left (fun s c => registry_step c s) cs (set_calls l s) =
  set_calls l (fold_left (fun s c => registry_step c s) cs s).
Proof.
  revert s. induction cs as [|c cs IH]; intros s; simpl; [done|].
  by rewrite registry_step_set_calls, IH.
Qed.

Lemma reentries_set_calls body ds l s :
  reentries body ds (set_calls l s) = set_calls l (reentries body ds s).
Proof.
  unfold reentries. revert s. induction ds as [|d ds IH]; intros s; simpl; [done|].
  by rewrite registry_steps_set_calls, IH.
Qed.

(** Invocations that do not throw are all made, in order, each
    followed by its calls into the registry. *)
Lemma deliver_returns body ds s :
  never_throws body ->
  deliver body ds s =
  (Normal tt, set_calls (calls s ++ ds) (reentries body ds s)).
Proof.
  intros N. revert s. induction ds as [|[c a] ds IH]; intros s; simpl.
  - by rewrite app_nil_r, set_calls_id.
  - unfold bind at 1. unfold invoke, bind, modify; simpl. rewrite N.
    unfold ret. rewrite registry_steps_set_calls, IH.
    rewrite reentries_set_calls. simpl.
    by rewrite set_calls_twice, <- app_assoc.
Qed.

(** With subscribers that do not throw, one dispatch walks the list of
    the message's type as it stood when the message arrived: a
    subscriber added to or removed from that list by an earlier
    subscriber of the same dispatch is still not, respectively still,
    invoked.  The wildcard list is read afterwards, so it is walked as
    the typed subscribers left it. *)
Theorem dispatch_walks_lists_as_found body j t payload s :
  get_prop (of_json j) "type" = Normal (VStr t) ->
  get_prop (of_json j) "payload" = Normal payload ->
  never_throws body ->
  let typed := List.map (fun cb => (cb, payload)) (callbacks_for t s) in
  let s1 := reentries body typed s in
  let wild := List.map (fun cb => (cb, of_json j)) (callbacks_for "*" s1) in
  onmessage body (Doc j) s =
  (Normal tt, set_calls (calls s ++ typed ++ wild) (reentries body wild s1)).
Proof.
  intros Ht Hp N typed s1 wild. rewrite (onmessage_parsed body _ _ _ _ Ht Hp).
  unfold try_catch, bind, gets.
  rewrite forEach_deliver, deliver_returns by done. fold typed. fold s1.
  rewrite callbacks_for_set_calls, forEach_deliver, deliver_returns by done.
  fold wild. rewrite reentries_set_calls. simpl.
  by rewrite set_calls_twice, <- app_assoc.
Qed.

Lemma dispatch_walks_lists_as_found_revoker :
  let s' := snd (onmessage first_revokes (Doc chat_hi) revoker_first) in
  calls s' = [(1%nat, VStr "hi"); (2%nat, VStr "hi")]
  /\ callbacks_for "chat" s' = [1%nat]
  /\ callbacks_for "*" s' = [].
Proof.
  rewrite (dispatch_walks_lists_as_found first_revokes chat_hi "chat" (VStr "hi")
             revoker_first).
  - vm_compute. repeat split.
  - reflexivity.
  - reflexivity.
  - intros cb arg. unfold first_revokes. by destruct (Nat.eqb cb 1).
Defined.

(** ** Subscribing, dispatching, unsubscribing *)

(** With subscribers that return, for a message of a type [t] other
    than ['*']: once [cb] is subscribed under [t], a dispatch invokes
    it after the callbacks registered earlier under [t] and before the
    wildcard subscribers; once the function returned by that
    subscription has been invoked, a dispatch makes no typed delivery
    to [cb] at all, the other callbacks being served as before. *)
Theorem subscribe_dispatch_unsubscribe body j t payload cb s :
  get_prop (of_json j) "type" = Normal (VStr t) ->
  get_prop (of_json j) "payload" = Normal payload ->
  t <> "*"%string ->
  (forall c, body c payload = quiet) ->
  (forall c, body c (of_json j) = quiet) ->
  let l := fst (addMessageListener t cb s) in
  let s1 := snd (addMessageListener t cb s) in
  calls (snd (onmessage body (Doc j) s1)) =
    calls s
    ++ List.map (fun c => (c, payload)) (callbacks_for t s) ++ [(cb, payload)]
    ++ List.map (fun c => (c, of_json j)) (callbacks_for "*" s)
  /\ calls (snd (onmessage body (Doc j) (removeListener l s1))) =
    calls s
    ++ List.map (fun c => (c, payload)) (List.filter (differs cb) (callbacks_for t s))
    ++ List.map (fun c => (c, of_json j)) (callbacks_for "*" s).
Proof.
  intros Ht Hp D Q1 Q2 l s1.
  assert (calls s1 = calls s) as C1 by done.
  assert (calls (removeListener l s1) = calls s) as C2 by done.
  assert (callbacks_for t s1 = callbacks_for t s ++ [cb]) as T1.
  { subst s1. rewrite callbacks_for_add. by rewrite decide_True. }
  assert (callbacks_for "*" s1 = callbacks_for "*" s) as W1.
  { subst s1. rewrite callbacks_for_add. by rewrite decide_False. }
  assert (l = {| l_type := t; l_callback := cb |}) as -> by done.
  clearbody s1. split.
  - rewrite (onmessage_quiet body j t payload s1 Ht Hp) by done.
    cbn [snd]. rewrite calls_set_calls, C1, T1, W1.
    by rewrite map_app, <- app_assoc.
  - rewrite (onmessage_quiet body j t payload _ Ht Hp) by done.
    cbn [snd]. rewrite calls_set_calls, C2, !callbacks_for_remove.
    cbn [l_type l_callback].
    rewrite decide_True, decide_False by done. rewrite T1, W1.
    rewrite List.filter_app. cbn [List.filter]. unfold differs at 2.
    rewrite Nat.eqb_refl. cbn [negb]. by rewrite app_nil_r.
Qed.

Lemma subscribe_dispatch_unsubscribe_chat :
  let '(l, s1) := addMessageListener "chat" 7%nat three_subscribers in
  calls (snd (onmessage all_quiet (Doc chat_hi) s1)) =
    [(1%nat, VStr "hi"); (3%nat, VStr "hi"); (7%nat, VStr "hi"); (2%nat, of_json chat_hi)]
  /\ calls (snd (onmessage all_quiet (Doc chat_hi) (removeListener l s1))) =
    [(1%nat, VStr "hi"); (3%nat, VStr "hi"); (2%nat, of_json chat_hi)].
Proof.
  exact (subscribe_dispatch_unsubscribe all_quiet chat_hi "chat" (VStr "hi") 7%nat
           three_subscribers eq_refl eq_refl ltac:(discriminate)
           (fun _ => eq_refl) (fun _ => eq_refl)).
Defined.

(** ** What is sent can be received *)




(** ** Replacing the socket *)

Lemma connectWebSocket_sockets s :
  sockets (connectWebSocket s) =
  (if socket_open s
   then match socketRef s with
        | Some k => alter (with_readyState CLOSING) k (sockets s)
        | None => sockets s
        end
   else sockets s)
  ++ [{| url := wsUrl s; readyState := CONNECTING; sent := [] |}].
Proof.
  assert (forall s1, socket_open s1 = socket_open s -> socketRef s1 = socketRef s ->
            sockets s1 = sockets s -> wsUrl s1 = wsUrl s ->
            sockets
              (let s2 := if socket_open s1
                         then match socketRef s1 with
                              | Some k => WebSocket_close k s1
                              | None => s1
                              end
                         else s1 in
               let '(socket, s3) := new_WebSocket (wsUrl s2) s2 in
               set_socketRef (Some socket) s3) =
            (if socket_open s
             then match socketRef s with
                  | Some k => alter (with_readyState CLOSING) k (sockets s)
                  | None => sockets s
                  end
             else sockets s)
            ++ [{| url := wsUrl s; readyState := CONNECTING; sent := [] |}]) as G.
  { intros s1 E1 E2 E3 E4. rewrite E1, E2. unfold socket_open in *.
    destruct (socketRef s) as [k|]; [|by rewrite <- E3, <- E4].
    rewrite E2 in E1. unfold WebSocket_close.
    unfold readyState_of in *. rewrite E3 in *.
    destruct (readyState <$> sockets s !! k) as [[]|];
      simpl; by rewrite <- ?E3, <- E4. }
  unfold connectWebSocket.
  destruct (reconnectTimeoutRef s); by apply G.
Qed.

Lemma connectWebSocket_socketRef s :
  socketRef (connectWebSocket s) = Some (connects s).
Proof.
  unfold connectWebSocket, new_WebSocket, connects, WebSocket_close, set_readyState.
  repeat case_match; simpl; by rewrite ?length_alter.
Qed.

Lemma connectWebSocket_status s :
  isConnected (connectWebSocket s) = isConnected s
  /\ error (connectWebSocket s) = error s
  /\ now (connectWebSocket s) = now s
  /\ site_of (connectWebSocket s) = site_of s.
Proof.
  unfold connectWebSocket, new_WebSocket, WebSocket_close.
  repeat case_match; done.
Qed.

Lemma connectWebSocket_new s :
  readyState_of (connects s) (connectWebSocket s) = Some CONNECTING.
Proof.
  unfold readyState_of, connects. rewrite connectWebSocket_sockets.
  rewrite lookup_app_r by (repeat case_match; rewrite ?length_alter; lia).
  replace (_ - _)%nat with 0%nat; [done|].
  repeat case_match; rewrite ?length_alter; lia.
Qed.

(** Right after [connectWebSocket], in whatever state it was called:
    the current socket is a new one, still connecting, so the send
    gate is shut; a socket that was current and open has been asked to
    close; and the status flag is as it was, it falls only when the old
    socket's close event arrives. *)
Theorem connectWebSocket_replaces_socket s :
  socketRef (connectWebSocket s) = Some (connects s)
  /\ readyState_of (connects s) (connectWebSocket s) = Some CONNECTING
  /\ socket_open (connectWebSocket s) = false
  /\ (forall type payload,
        sendMessage type payload (connectWebSocket s) =
        (Normal false, connectWebSocket s))
  /\ (forall k, socketRef s = Some k -> readyState_of k s = Some OPEN ->
                readyState_of k (connectWebSocket s) = Some CLOSING)
  /\ isConnected (connectWebSocket s) = isConnected s.
Proof.
  assert (socket_open (connectWebSocket s) = false) as O.
  { unfold socket_open. by rewrite connectWebSocket_socketRef, connectWebSocket_new. }
  split; [apply connectWebSocket_socketRef|].
  split; [apply connectWebSocket_new|].
  split; [done|]. split; [|split].
  - intros type payload. by rewrite sendMessage_cases, O.
  - intros k R E. unfold readyState_of in *. rewrite connectWebSocket_sockets.
    unfold socket_open, readyState_of. rewrite R, E.
    assert (k < length (sockets s))%nat as L.
    { apply lookup_lt_is_Some. destruct (sockets s !! k); [eauto|done]. }
    rewrite lookup_app_l by (by rewrite length_alter).
    rewrite list_lookup_alter_eq. by destruct (sockets s !! k).
  - apply connectWebSocket_status.
Qed.

Lemma connectWebSocket_replaces_socket_open :
  readyState_of 0 page_open = Some OPEN
  /\ readyState_of 0 (connectWebSocket page_open) = Some CLOSING
  /\ readyState_of 1 (connectWebSocket page_open) = Some CONNECTING
  /\ sendMessage "mark" (VNum 7) (connectWebSocket page_open) =
     (Normal false, connectWebSocket page_open).
Proof.
  destruct (connectWebSocket_replaces_socket page_open) as (_ & A & _ & B & C & _).
  split; [reflexivity|]. split; [|split].
  - apply (C 0%nat); reflexivity.
  - exact A.
  - apply B.
Defined.

(** ** The status flag and the send gate *)









(** ** After a clean close *)





(** ** After an unclean close *)

(** One failed attempt: the socket closes with a code other than 1000
    and at least 2000 ms pass. *)
Lemma failed_attempt body k r code ms s :
  orderly s -> readyState_of k s = Some r -> r <> CLOSED ->
  code <> 1000 -> 2000 <= ms ->
  let s' := run body [SocketClose k code; Elapse ms] s in
  orderly s'
  /\ timers s' = []
  /\ connects s' = S (connects s)
  /\ socketRef s' = Some (connects s)
  /\ readyState_of (connects s) s' = Some CONNECTING
  /\ now s' = now s + ms
  /\ isConnected s' = false.
Proof.
  intros O E N D L.
  destruct (orderly_live s k r O E N) as (T & _ & _).
  pose proof (all_closed_set_CLOSED s k r O E N) as C.
  apply Z.eqb_neq in D.
  assert (step body (SocketClose k code) s =
          onclose code (set_readyState k CLOSED s)) as E1.
  { simpl. rewrite E. by destruct r. }
  cbn [run fold_left]. rewrite E1. cbn [step].
  set (s1 := onclose code (set_readyState k CLOSED s)).
  assert (timers s1 = [{| handle := next_handle s; due := now s + 2000 |}]) as T1.
  { subst s1. unfold onclose, setTimeout. rewrite D; simpl. by rewrite T. }
  assert (now s1 = now s) as N1.
  { subst s1. unfold onclose, setTimeout. by rewrite D. }
  assert (connects s1 = connects s) as K1.
  { subst s1. unfold onclose, setTimeout, connects. rewrite D; simpl.
    by rewrite length_alter. }
  assert (isConnected s1 = false) as I1.
  { subst s1. unfold onclose, setTimeout. by rewrite D. }
  assert (all_closed s1) as C1.
  { subst s1. unfold onclose, setTimeout. by rewrite D. }
  clearbody s1. rewrite (elapse_one_timer _ _ _ T1). simpl due.
  rewrite (proj2 (Z.leb_le _ _)) by lia.
  rewrite Z.max_r by lia.
  set (s2 := set_timers [] (next_handle s1) (set_now (now s1 + ms) s1)).
  assert (all_closed s2) as C2 by done.
  split; [by apply orderly_connectWebSocket|].
  split; [rewrite connectWebSocket_timers; by destruct (reconnectTimeoutRef s2)|].
  split; [rewrite connectWebSocket_connects; by f_equal|].
  split; [by rewrite connectWebSocket_socketRef, <- K1|].
  split; [rewrite <- K1; apply (connectWebSocket_new s2)|].
  destruct (connectWebSocket_status s2) as (I & _ & W & _).
  split; [rewrite W; simpl; by rewrite N1 | by rewrite I].
Qed.

Lemma failed_attempts_run body codes :
  forallb (fun code => negb (Z.eqb code 1000)) codes = true ->
  forall k s,
    orderly s -> S k = connects s -> readyState_of k s = Some CONNECTING ->
    let s' := run body (failed_attempts k codes) s in
    orderly s'
    /\ timers s' = []
    /\ connects s' = (connects s + length codes)%nat
    /\ readyState_of (k + length codes) s' = Some CONNECTING
    /\ now s' = now s + 2000 * Z.of_nat (length codes)
    /\ (codes <> [] -> isConnected s' = false).
Proof.
  induction codes as [|code codes IH]; intros F k s O K E.
  - destruct (orderly_live s k _ O E) as (T & _); [done|].
    simpl. rewrite !Nat.add_0_r, Z.add_0_r.
    do 5 (split; [done|]). by intros [].
  - simpl in F. apply andb_prop in F as [F1 F2].
    apply negb_true_iff, Z.eqb_neq in F1.
    destruct (failed_attempt body k CONNECTING code 2000 s O E)
      as (O1 & T1 & K1 & _ & E1 & N1 & I1); try done.
    change (run body (failed_attempts k (code :: codes)) s)
      with (run body (failed_attempts (S k) codes)
              (run body [SocketClose k code; Elapse 2000] s)).
    set (s1 := run body [SocketClose k code; Elapse 2000] s) in *. clearbody s1.
    rewrite <- K in E1.
    destruct (IH F2 (S k) s1 O1) as (O2 & T2 & K2 & E2 & N2 & I2);
      [lia | done |].
    cbv zeta. split; [done|]. split; [done|].
    split; [rewrite K2, K1; simpl; lia|].
    split; [by replace (k + length (code :: codes))%nat
              with (S k + length codes)%nat by (simpl; lia)|].
    split; [rewrite N2, N1; simpl length; lia|].
    intros _. destruct codes as [|c codes]; [done|]. by apply I2.
Qed.

(** Reconnection has neither a limit nor a backoff: while every
    attempt fails with a code other than 1000, after [n] failures and
    [n] delays of 2000 ms the hook is at its attempt number [n + 1],
    the newest socket being the current one and connecting, with no
    timer pending. *)
Theorem reconnects_without_limit body protocol host codes :
  forallb (fun code => negb (Z.eqb code 1000)) codes = true ->
  let s := run body (failed_attempts 0 codes) (mounted protocol host) in
  connects s = S (length codes)
  /\ readyState_of (length codes) s = Some CONNECTING
  /\ socket_open s = false
  /\ timers s = []
  /\ now s = 2000 * Z.of_nat (length codes).
Proof.
  intros F s.
  destruct (failed_attempts_run body codes F 0%nat (mounted protocol host))
    as (O & T & K & E & N & _).
  - apply orderly_mounted.
  - reflexivity.
  - reflexivity.
  - fold s in O, T, K, E, N. simpl in E.
    destruct (orderly_live s _ _ O E) as (_ & R & _); [done|].
    split; [exact K|]. split; [exact E|].
    split; [unfold socket_open; by rewrite R, E|]. split; [exact T|exact N].
Qed.

Lemma reconnects_without_limit_three :
  let s := run all_quiet (failed_attempts 0 [1006; 1011; 1005]) page in
  connects s = 4%nat /\ now s = 6000.
Proof.
  intros s.
  destruct (reconnects_without_limit all_quiet "https:" "bingo.example"
              [1006; 1011; 1005] eq_refl) as (A & _ & _ & _ & B).
  split; [exact A|exact B].
Defined.

(** ** Unmount *)


Lemma cleanup_connects s : connects (cleanup s) = connects s.
Proof.
  unfold cleanup, connects, WebSocket_close, set_readyState.
  repeat case_match; simpl; by rewrite ?length_alter.
Qed.


(** A socket that can still deliver events can still do so after the
    cleanup. *)
Lemma cleanup_live k r s :
  readyState_of k s = Some r -> r <> CLOSED ->
  exists r', readyState_of k (cleanup s) = Some r' /\ r' <> CLOSED.
Proof.
  intros E N. unfold cleanup.
  set (s1 := match reconnectTimeoutRef s with
             | Some h => clearTimeout h s
             | None => s
             end).
  assert (readyState_of k s1 = Some r) as E1.
  { subst s1. by destruct (reconnectTimeoutRef s). }
  clearbody s1. destruct (socket_open s1); [|eauto].
  destruct (socketRef s1) as [k'|]; [|eauto]. unfold WebSocket_close.
  destruct (readyState_of k' s1) as [[]|] eqn:E'; eauto;
    rewrite readyState_of_set; case_decide; subst; eauto;
    rewrite E1; simpl; eauto.
Qed.


(** The cleanup leaves the handlers on the socket.  So when the socket
    it asked to close, or one that was still connecting, then gets a
    close event with a code other than 1000, the reconnect is scheduled
    all the same, and 2000 ms later the unmounted hook constructs a new
    socket. *)
Theorem unmount_does_not_stop_reconnect body protocol host es k r code :
  let s := run body es (mounted protocol host) in
  readyState_of k s = Some r ->
  r <> CLOSED ->
  code <> 1000 ->
  let s' := run body [Unmount; SocketClose k code; Elapse 2000] s in
  connects s' = S (connects s)
  /\ socketRef s' = Some (connects s)
  /\ readyState_of (connects s) s' = Some CONNECTING.
Proof.
  intros s E N D.
  assert (orderly s) as O by apply orderly_run, orderly_mounted.
  destruct (cleanup_live k r s E N) as (r' & E' & N').
  change (run body [Unmount; SocketClose k code; Elapse 2000] s)
    with (run body [SocketClose k code; Elapse 2000] (cleanup s)).
  destruct (failed_attempt body k r' code 2000 (cleanup s))
    as (_ & _ & K & R & C & _); try done.
  - by apply orderly_cleanup.
  - rewrite cleanup_connects in K, R, C. done.
Qed.

Lemma unmount_does_not_stop_reconnect_1005 :
  let s' := run all_quiet [Unmount; SocketClose 0 1005; Elapse 2000] page_open in
  connects s' = 2%nat /\ readyState_of 1 s' = Some CONNECTING.
Proof.
  intros s'.
  destruct (unmount_does_not_stop_reconnect all_quiet "https:" "bingo.example"
              [SocketOpen 0] 0%nat OPEN 1005 eq_refl)
    as (A & _ & B); [discriminate|discriminate|].
  split; [exact A|exact B].
Defined.

(** ** Error events *)



(** ** The endpoint *)

Lemma urls_alter (f : WebSocket -> WebSocket) k (l : list WebSocket) :
  (forall w, url (f w) = url w) -> url <$> alter f k l = url <$> l.
Proof.
  intros H. rewrite (list_fmap_alter url f id).
  - by apply list_alter_id.
  - apply Forall_forall. intros w _. apply H.
Qed.

Lemma site_step body e s : site_of (step body e s) = site_of s.
Proof.
  destruct e as [k|k data|k code|k|ms|type payload|type cb|l|]; simpl.
  - by destruct (readyState_of k s) as [[]|].
  - destruct (readyState_of k s) as [[]|]; try done.
    apply (respects_onmessage (fun s s' => site_of s' = site_of s)); try done.
    + intros s1 s2 s3 H1 H2. by rewrite H2.
    + by intros cb arg [].
  - destruct (readyState_of k s) as [[]|]; try done;
      unfold onclose, setTimeout; by case_match.
  - by destruct (readyState_of k s) as [[]|].
  - unfold elapse.
    assert (forall n s0, site_of (run_timers n s0) = site_of s0) as G.
    { induction n as [|n IH]; intros s0; simpl; [done|].
      destruct (due_timer s0); [|done].
      by rewrite IH, (proj2 (proj2 (proj2 (connectWebSocket_status _)))). }
    by rewrite G.
  - rewrite sendMessage_cases. by repeat case_match.
  - done.
  - done.
  - unfold cleanup, WebSocket_close. by repeat case_match.
Qed.

Lemma urls_connectWebSocket s :
  url <$> sockets (connectWebSocket s) = (url <$> sockets s) ++ [wsUrl s].
Proof.
  rewrite connectWebSocket_sockets, fmap_app. f_equal.
  repeat case_match; try done. by apply urls_alter.
Qed.

Lemma urls_step body protocol host e s :
  site_of s = (protocol, host) ->
  Forall (fun u => u = endpoint protocol host) (url <$> sockets s) ->
  Forall (fun u => u = endpoint protocol host) (url <$> sockets (step body e s)).
Proof.
  intros S U.
  assert (forall s0, site_of s0 = (protocol, host) ->
            wsUrl s0 = endpoint protocol host) as W.
  { intros s0 [= E1 E2]. unfold wsUrl, endpoint. by rewrite E1, E2. }
  destruct e as [k|k data|k code|k|ms|type payload|type cb|l|]; simpl.
  - destruct (readyState_of k s) as [[]|]; try done.
    simpl. by rewrite urls_alter.
  - destruct (readyState_of k s) as [[]|]; try done.
    pose proof (onmessage_connection body data s) as C.
    unfold connection_of in C. simplify_eq. congruence.
  - assert (url <$> sockets (onclose code (set_readyState k CLOSED s)) =
            url <$> sockets s) as E.
    { unfold onclose, setTimeout. case_match; simpl; by rewrite urls_alter. }
    destruct (readyState_of k s) as [[]|]; try done; by rewrite E.
  - by destruct (readyState_of k s) as [[]|].
  - unfold elapse.
    assert (forall n s0, site_of s0 = (protocol, host) ->
              Forall (fun u => u = endpoint protocol host) (url <$> sockets s0) ->
              Forall (fun u => u = endpoint protocol host)
                (url <$> sockets (run_timers n s0))) as G.
    { induction n as [|n IH]; intros s0 S0 U0; simpl; [done|].
      destruct (due_timer s0); [|done]. apply IH.
      - by rewrite (proj2 (proj2 (proj2 (connectWebSocket_status _)))).
      - rewrite urls_connectWebSocket. apply Forall_app. split; [done|].
        apply Forall_singleton. by apply W. }
    by apply G.
  - rewrite sendMessage_cases. repeat case_match; simpl; try done.
    by rewrite urls_alter.
  - done.
  - done.
  - unfold cleanup, WebSocket_close, set_readyState.
    repeat case_match; simpl; rewrite ?urls_alter; done.
Qed.

(** Every socket a mounted hook ever constructs, the first one and
    every reconnect, targets the same endpoint: scheme [wss:] exactly
    when the page's protocol is [https:], otherwise [ws:], then the
    page's host and the path [/ws]. *)
Theorem every_socket_targets_the_endpoint body protocol host es :
  Forall (fun w => url w = endpoint protocol host)
         (sockets (run body es (mounted protocol host))).
Proof.
  assert (forall es s, site_of s = (protocol, host) ->
            Forall (fun u => u = endpoint protocol host) (url <$> sockets s) ->
            Forall (fun u => u = endpoint protocol host)
              (url <$> sockets (run body es s))) as G.
  { clear es. induction es as [|e es IH]; intros s S U; simpl; [done|].
    apply IH; [by rewrite site_step | by apply urls_step]. }
  apply (Forall_fmap url (fun u => u = endpoint protocol host)).
  apply G; [done|]. by apply Forall_singleton.
Qed.

(** ** Sending several messages *)

(** On an open current socket, messages that have an encoding are
    written in the order of the calls, after what was written before;
    the socket stays open and no other socket is touched. *)
Theorem sends_are_written_in_order body msgs texts k s :
  socketRef s = Some k ->
  readyState_of k s = Some OPEN ->
  Forall2 (fun m text => JSON_stringify_message (fst m) (snd m) = Normal text)
          msgs texts ->
  let s' := run body (sends msgs) s in
  sent <$> sockets s' !! k = (fun w => sent w ++ texts) <$> sockets s !! k
  /\ readyState_of k s' = Some OPEN
  /\ forall k', k' <> k -> sockets s' !! k' = sockets s !! k'.
Proof.
  intros R E F. revert s R E.
  induction F as [|[type payload] text msgs texts H F IH]; intros s R E; simpl.
  - split; [|done]. destruct (sockets s !! k); simpl; [|done].
    by rewrite app_nil_r.
  - simpl in H. rewrite sendMessage_cases.
    assert (socket_open s = true) as -> by (unfold socket_open; by rewrite R, E).
    rewrite R, H. simpl snd.
    destruct (IH (WebSocket_send k text s)) as (A & B & C).
    + done.
    + by rewrite readyState_of_send.
    + split; [|split; [done|]].
      * rewrite A. unfold WebSocket_send; simpl. rewrite list_lookup_alter_eq.
        destruct (sockets s !! k); simpl; [|done]. by rewrite <- app_assoc.
      * intros k' D. rewrite (C k' D). unfold WebSocket_send; simpl.
        by rewrite list_lookup_alter_ne.
Qed.

Lemma sends_are_written_in_order_two :
  sent <$> sockets (run all_quiet (sends [("mark"%string, VNum 7);
                                          ("bingo"%string, VUndefined)])
                      page_open) !! 0%nat =
  Some [JObj [("type"%string, JStr "mark"); ("payload"%string, JNum 7)];
        JObj [("type"%string, JStr "bingo")]].
Proof.
  destruct (sends_are_written_in_order all_quiet
              [("mark"%string, VNum 7); ("bingo"%string, VUndefined)]
              [JObj [("type"%string, JStr "mark"); ("payload"%string, JNum 7)];
               JObj [("type"%string, JStr "bingo")]]
              0%nat page_open eq_refl eq_refl) as (A & _).
  - repeat constructor.
  - rewrite A. reflexivity.
Defined.

(** ** The open event *)


